(** * syntaxrules: the syntax tree kept as RDF triples

    A shallow embedding of [syntaxrules/syntaxtree.py]: the materialised
    view built by [SyntaxTree.get_triples], the token table and the
    lexicon pass of [SyntaxTree.apply_lexicon], and the conversion
    [_saf_to_rdf] from an analysed sentence to triples.

    Text is modelled by [string] (8-bit characters; Python's [lower] is the
    ASCII one).  Python dictionaries are finite maps ([gmap]) where only
    lookups matter, and association lists in iteration order where the
    source iterates over them.  Attribute names that Python resolves on the
    class of an object rather than in its instance dictionary (the
    double-underscore names) are no predicates of the store. *)

From Stdlib Require Import ZArith String Ascii List DecimalString.
From stdpp Require Import gmap strings list fin_maps.

Open Scope string_scope.
Open Scope list_scope.

(** ** Python's string methods *)

Module Py.

Definition lower_char (c : ascii) : ascii :=
  let n := nat_of_ascii c in
  if (65 <=? n)%nat && (n <=? 90)%nat then ascii_of_nat (n + 32) else c.

(** [s.lower()] *)
Fixpoint lower (s : string) : string :=
  match s with
  | EmptyString => EmptyString
  | String c s' => String (lower_char c) (lower s')
  end.

(** [s.startswith(p)] *)
Fixpoint startswith (s p : string) : bool :=
  match p, s with
  | EmptyString, _ => true
  | String _ _, EmptyString => false
  | String a p', String b s' => Ascii.eqb a b && startswith s' p'
  end.

(** [s.endswith(x)] *)
Fixpoint endswith (s x : string) : bool :=
  String.eqb s x ||
  match s with
  | EmptyString => false
  | String _ s' => endswith s' x
  end.

(** [s[:-1]] *)
Fixpoint drop_last (s : string) : string :=
  match s with
  | EmptyString => EmptyString
  | String c EmptyString => EmptyString
  | String c s' => String c (drop_last s')
  end.

(** [s.replace(old, new)] for a non-empty [old]: the occurrences of [old]
    are found from the left and do not overlap; [skip] counts the
    characters of an occurrence still to be passed over. *)
Fixpoint replace_from (old new : string) (skip : nat) (s : string) : string :=
  match s with
  | EmptyString => EmptyString
  | String c s' =>
      match skip with
      | S k => replace_from old new k s'
      | O =>
          if startswith s old
          then new +:+ replace_from old new (Nat.pred (String.length old)) s'
          else String c (replace_from old new 0 s')
      end
  end.

Definition replace (s old new : string) : string := replace_from old new 0 s.

(** [sep.join(l)] *)
Fixpoint join (sep : string) (l : list string) : string :=
  match l with
  | [] => EmptyString
  | [x] => x
  | x :: l' => x +:+ sep +:+ join sep l'
  end.

(** [unicode(n)] for an integer *)
Definition unicode_of_int (z : Z) : string := NilZero.string_of_int (Z.to_int z).

(** The exceptions the modelled code can raise. *)
Inductive exn : Type :=
| KeyError (key : string)
| KeyErrorInt (key : Z)
| AttributeError (name : string)
| ValueError (text : string).

End Py.

(** ** Module constants *)

Definition BASE : string := "http://example.com/jitp/".
Definition RDF_TYPE : string := "http://www.w3.org/1999/02/22-rdf-syntax-ns#type".

(** [NS_BASE[name]] *)
Definition NS_BASE (name : string) : string := BASE +:+ name.

(** ** Facts of the store

    [self.soh.get_triples()] yields (subject, predicate, object) with the
    object an rdflib [Literal] or a node reference. *)

Inductive object : Type :=
| Literal (value : string)
| URIRef (uri : string).

Definition fact : Type := string * string * object.

(** ** [Node]: a record with arbitrary attributes, its [__dict__] *)

Abbreviation Node := (gmap string string).

(** [Node(uri=s)] *)
Definition Node_new (s : string) : Node := {[ "uri" := s ]}.

(** [setattr(n, name, value)]; [hasattr(n, name)] and [getattr(n, name)] are
    the lookup [n !! name] in the instance dictionary. *)
Definition setattr (n : Node) (name value : string) : Node := <[name := value]> n.

(** ** [SyntaxTree.get_triples] *)

(** [filter_predicate]: a string or a list of strings ([None] is the option). *)
Inductive filter_arg : Type :=
| FStr (s : string)
| FList (l : list string).

(** [Triple(child, pred, parent)]: the two nodes are objects of the node
    table, referred to by their key there. *)
Record Triple : Type := mkTriple {
  subject : string;
  predicate : string;
  obj : string
}.

(** The loop's state: the dictionary [nodes] and the list [result]. *)
Record view : Type := mkView {
  nodes : gmap string Node;
  result : list Triple
}.

(** [nodes.setdefault(key, Node(uri=key))]: the table afterwards. *)
Definition setdefault (key : string) (ns : gmap string Node) : gmap string Node :=
  match ns !! key with
  | Some _ => ns
  | None => <[key := Node_new key]> ns
  end.

(** the node [nodes.setdefault] returns *)
Definition node_at (key : string) (ns : gmap string Node) : Node :=
  match ns !! key with
  | Some n => n
  | None => Node_new key
  end.

(** [isinstance(filter_predicate, (str, unicode))]: wrap in a list *)
Definition normalize_filter (f : option filter_arg) : option (list string) :=
  match f with
  | Some (FStr s) => Some [s]
  | Some (FList l) => Some l
  | None => None
  end.

(** truth value of [filter_predicate and pred not in filter_predicate] *)
Definition filtered_out (f : option (list string)) (pred : string) : bool :=
  match f with
  | None => false
  | Some [] => false
  | Some l => negb (existsb (String.eqb pred) l)
  end.

(** the condition guarding the creation of an edge, lines 94-97 *)
Definition excluded (ignore_rel ignore_grammatical : bool)
    (f : option (list string)) (pred : string) : bool :=
  (ignore_rel && String.eqb pred "rel")
  || (ignore_grammatical && Py.startswith pred "rel_")
  || filtered_out f pred
  || String.eqb pred RDF_TYPE.

(** One iteration of [for s, p, o in self.soh.get_triples()]. *)
Definition get_triples_step (ignore_rel ignore_grammatical : bool)
    (f : option (list string)) (st : view) (t : fact) : view :=
  let '(s, p, o) := t in
  let ns := setdefault s (nodes st) in
  let child := node_at s (nodes st) in
  let pred := Py.replace p BASE EmptyString in
  match o with
  | Literal v =>
      let v' := match child !! pred with
                | Some old => old +:+ "; " +:+ v
                | None => v
                end in
      mkView (<[s := setattr child pred v']> ns) (result st)
  | URIRef o =>
      if negb (excluded ignore_rel ignore_grammatical f pred)
      then mkView (setdefault o ns) (result st ++ [mkTriple s pred o])
      else mkView ns (result st)
  end.

Definition materialize (ignore_rel ignore_grammatical : bool)
    (f : option (list string)) (store : list fact) : view :=
  fold_left (get_triples_step ignore_rel ignore_grammatical f) store (mkView ∅ []).

(** [{"subject": s.id, "predicate": p, "object": o.id}] *)
Record minimal_triple : Type := mkMinimal {
  min_subject : string;
  min_predicate : string;
  min_object : string
}.

(** [n.id] *)
Definition get_id (ns : gmap string Node) (key : string) : Py.exn + string :=
  match ns !! key ≫= (.!! "id") with
  | Some i => inr i
  | None => inl (Py.AttributeError "id")
  end.

(** the list comprehension of lines 102-103, left to right *)
Fixpoint minimal_view (ns : gmap string Node) (l : list Triple)
    : Py.exn + list minimal_triple :=
  match l with
  | [] => inr []
  | t :: l' =>
      match get_id ns (subject t) with
      | inl e => inl e
      | inr s =>
          match get_id ns (obj t) with
          | inl e => inl e
          | inr o =>
              match minimal_view ns l' with
              | inl e => inl e
              | inr r => inr (mkMinimal s (predicate t) o :: r)
              end
          end
      end
  end.

(** What [get_triples] returns: the list [result] (whose triples share
    their nodes with the node table, so the table comes with it), or the
    list of projections. *)
Inductive triples : Type :=
| Full (v : view)
| Minimal (l : list minimal_triple).

Definition get_triples (store : list fact) (ignore_rel : bool)
    (filter_predicate : option filter_arg) (ignore_grammatical minimal : bool)
    : Py.exn + triples :=
  let v := materialize ignore_rel ignore_grammatical
             (normalize_filter filter_predicate) store in
  if minimal then
    match minimal_view (nodes v) (result v) with
    | inl e => inl e
    | inr l => inr (Minimal l)
    end
  else inr (Full v).


(** ** Effects: what a loop emits, in order, and how it ends

    [apply_lexicon] sends updates to the backend and [_saf_to_rdf] yields
    facts; both can stop with an exception, after which what was emitted
    before stays emitted. *)

Definition emitter (W A : Type) : Type := list W * (Py.exn + A).

Definition raise {W A : Type} (e : Py.exn) : emitter W A := ([], inl e).
Definition emit {W : Type} (w : W) : emitter W unit := ([w], inr tt).

#[global] Instance emitter_ret {W : Type} : MRet (emitter W) :=
  λ A a, ([], inr a).

#[global] Instance emitter_bind {W : Type} : MBind (emitter W) :=
  λ A B k m,
    match m with
    | (ws, inl e) => (ws, inl e)
    | (ws, inr a) => let '(ws', r) := k a in (ws ++ ws', r)
    end.

(** what was emitted, and the outcome *)
Definition emitted {W A : Type} (m : emitter W A) : list W := m.1.
Definition outcome {W A : Type} (m : emitter W A) : Py.exn + A := m.2.

(** [for x in l: body] *)
Fixpoint for_each {W A : Type} (l : list A) (body : A → emitter W unit)
    : emitter W unit :=
  match l with
  | [] => mret tt
  | x :: l' => body x ;; for_each l' body
  end.

(** ** [SyntaxTree.get_tokens] *)

(** [tokens[s][pred] = unicode(o)] on a [defaultdict(dict)], with [pred]
    the predicate without its base *)
Definition get_tokens_step (tokens : gmap string (gmap string string)) (t : fact)
    : gmap string (gmap string string) :=
  match t with
  | (s, p, Literal v) =>
      <[s := <[Py.replace p BASE EmptyString := v]> (default ∅ (tokens !! s))]> tokens
  | (_, _, URIRef _) => tokens
  end.

Definition get_tokens (store : list fact) : gmap string (gmap string string) :=
  fold_left get_tokens_step store ∅.

(** ** [SyntaxTree.apply_lexicon] *)

(** [lex['lemma']]: a string or a list of strings *)
Inductive lemma_arg : Type :=
| LStr (s : string)
| LList (l : list string).

(** A lexicon entry: a dict with [lexclass], [lemma] and optional [pos]. *)
Record LexEntry : Type := mkLex {
  lex_lexclass : string;
  lex_lemma : lemma_arg;
  lex_pos : option string
}.

(** The call [self.soh.update(insert=insert)], kept as the two values that
    fill the format string. *)
Record lexclass_insert : Type := mkInsert {
  ins_uri : string;
  ins_lexclass : string
}.

Definition quote : string := String (ascii_of_nat 34) EmptyString.

(** the text of the insert clause: the token's abbreviated URI, then
    [:lexclass], then the class between double quotes *)
Definition insert_text (u : lexclass_insert) : string :=
  ins_uri u +:+ " :lexclass " +:+ quote +:+ ins_lexclass u +:+ quote.

(** [d[key]] on a dict of strings *)
Definition getitem {W : Type} (d : gmap string string) (key : string)
    : emitter W string :=
  match d !! key with
  | Some v => mret v
  | None => raise (Py.KeyError key)
  end.

(** [target == lemma or (target.endswith("*") and lemma.startswith(target[:-1]))] *)
Definition target_matches (target lemma : string) : bool :=
  String.eqb target lemma
  || (Py.endswith target "*" && Py.startswith lemma (Py.drop_last target)).

(** ["pos" in lex and lex['pos'] != pos] *)
Definition pos_differs (lex : LexEntry) (pos : string) : bool :=
  match lex_pos lex with
  | Some p => negb (String.eqb p pos)
  | None => false
  end.

(** [if not isinstance(lemmata, list): lemmata = [lemmata]] *)
Definition lemmata_of (l : lemma_arg) : list string :=
  match l with
  | LStr s => [s]
  | LList l => l
  end.

(** The body of [for lex in lexicon]. *)
Definition apply_entry (uri pos lemma : string) (lex : LexEntry)
    : emitter lexclass_insert unit :=
  if pos_differs lex pos then mret tt (* continue *)
  else
    let lemmata := lemmata_of (lex_lemma lex) in
    let lexclass := lex_lexclass lex in
    for_each lemmata (λ target,
      if target_matches target lemma
      then emit (mkInsert uri lexclass)
      else mret tt).

(** The body of [for uri, token in self.get_tokens().iteritems()]. *)
Definition apply_token (lexicon : list LexEntry)
    (item : string * gmap string string) : emitter lexclass_insert unit :=
  let '(uri, token) := item in
  let uri := Py.replace uri BASE ":" in
  pos ← getitem token "pos";
  lemma ← getitem token "lemma";
  let lemma := Py.lower lemma in
  for_each lexicon (apply_entry uri pos lemma).

(** The pass over the tokens taken in the order [items]. *)
Definition lexicon_pass (lexicon : list LexEntry)
    (items : list (string * gmap string string)) : emitter lexclass_insert unit :=
  for_each items (apply_token lexicon).

(** [apply_lexicon] on a store: the tokens are read once, before the loop;
    a dictionary is iterated in an order of its own. *)
Definition apply_lexicon (store : list fact) (lexicon : list LexEntry)
    : emitter lexclass_insert unit :=
  lexicon_pass lexicon (map_to_list (get_tokens store)).

(** ** [_saf_to_rdf]: from an analysed sentence (SAF) to facts *)

(** A value of the SAF document: a number or a text. *)
Inductive jval : Type :=
| JInt (z : Z)
| JStr (s : string).

(** A token is a flat dict, kept in the order [iteritems] goes through it. *)
Definition saf_token : Type := list (string * jval).

(** A dependency is a dict with [child], [parent] and [relation]. *)
Record dependency : Type := mkDep {
  child : jval;
  parent : jval;
  relation : jval
}.

Record saf_article : Type := mkArticle {
  tokens : list saf_token;
  dependencies : list dependency
}.

(** Library functions the module relies on: the transliteration
    [unidecode], and Python's [int] on a text ([None]: [ValueError]). *)
Class Library : Type := {
  unidecode : string → string;
  int_of_text : string → option Z
}.

Section Saf.

Context `{lib : Library}.

(** [unicode(v)] *)
Definition unicode (v : jval) : string :=
  match v with
  | JInt z => Py.unicode_of_int z
  | JStr s => s
  end.

(** [int(v)] *)
Definition int {W : Type} (v : jval) : emitter W Z :=
  match v with
  | JInt z => mret z
  | JStr s =>
      match int_of_text s with
      | Some z => mret z
      | None => raise (Py.ValueError s)
      end
  end.

(** [token[key]] *)
Fixpoint token_get (token : saf_token) (key : string) : option jval :=
  match token with
  | [] => None
  | (k, v) :: rest => if String.eqb k key then Some v else token_get rest key
  end.

Definition token_getitem {W : Type} (token : saf_token) (key : string)
    : emitter W jval :=
  match token_get token key with
  | Some v => mret v
  | None => raise (Py.KeyError key)
  end.

Definition _token_uri {W : Type} (token : saf_token) : emitter W string :=
  lemma ← token_getitem token "lemma";
  let lemma := unidecode (unicode lemma) in
  id ← token_getitem token "id";
  let uri := "t_" +:+ unicode id +:+ "_" +:+ lemma in
  mret (NS_BASE uri).

Definition _rel_uri (dep : dependency) : string :=
  NS_BASE ("rel_" +:+ unicode (relation dep)).

(** The loop over [saf_article['tokens']]; [tokens] maps a token id to
    its URI. *)
Fixpoint token_loop (sentence_id : Z) (l : list saf_token) (tokens : gmap Z string)
    : emitter fact (gmap Z string) :=
  match l with
  | [] => mret tokens
  | token :: rest =>
      sentence ← token_getitem token "sentence" ≫= int;
      if Z.eqb sentence sentence_id then
        uri ← _token_uri token;
        for_each token (λ '(k, v),
          emit (uri, NS_BASE k, Literal (unidecode (unicode v))));;
        id ← token_getitem token "id" ≫= int;
        token_loop sentence_id rest (<[id := uri]> tokens)
      else token_loop sentence_id rest tokens
  end.

(** [tokens[key]] *)
Definition uri_getitem {W : Type} (tokens : gmap Z string) (key : Z)
    : emitter W string :=
  match tokens !! key with
  | Some uri => mret uri
  | None => raise (Py.KeyErrorInt key)
  end.

(** The body of [for dep in saf_article['dependencies']]. *)
Definition dependency_step (tokens : gmap Z string) (dep : dependency)
    : emitter fact unit :=
  c ← int (child dep);
  if bool_decide (is_Some (tokens !! c)) then
    c ← int (child dep);
    child ← uri_getitem tokens c;
    p ← int (parent dep);
    parent ← uri_getitem tokens p;
    for_each [_rel_uri dep; NS_BASE "rel"] (λ pred,
      emit (child, pred, URIRef parent))
  else mret tt.

Definition _saf_to_rdf (saf_article : saf_article) (sentence_id : Z)
    : emitter fact unit :=
  tokens ← token_loop sentence_id (tokens saf_article) ∅;
  for_each (dependencies saf_article) (dependency_step tokens).

(** *** The conversion as the specification words it *)

(** a number, as [int] reads it *)
Definition as_int (v : jval) : option Z :=
  match v with
  | JInt z => Some z
  | JStr s => int_of_text s
  end.

Definition token_sentence (token : saf_token) : option Z :=
  token_get token "sentence" ≫= as_int.

Definition token_id (token : saf_token) : option Z :=
  token_get token "id" ≫= as_int.

Definition token_uri (token : saf_token) : option string :=
  lemma ← token_get token "lemma";
  id ← token_get token "id";
  Some (NS_BASE ("t_" +:+ unicode id +:+ "_" +:+ unidecode (unicode lemma))).

(** the token's [sentence] field equals [sentence_id] *)
Definition in_sentence (sentence_id : Z) (token : saf_token) : bool :=
  bool_decide (token_sentence token = Some sentence_id).

(** one literal fact per attribute of the token *)
Definition token_facts (uri : string) (token : saf_token) : list fact :=
  map (λ kv, (uri, NS_BASE kv.1, Literal (unidecode (unicode kv.2)))) token.

(** two relation facts, from the child to the parent *)
Definition dependency_facts (child parent : string) (dep : dependency)
    : list fact :=
  [(child, _rel_uri dep, URIRef parent); (child, NS_BASE "rel", URIRef parent)].

(** the URI of each token id of the sentence (a later token with the same
    id replaces an earlier one) *)
Definition uris_step (sentence_id : Z) (uris : gmap Z string) (token : saf_token)
    : gmap Z string :=
  if in_sentence sentence_id token then
    match token_id token, token_uri token with
    | Some id, Some uri => <[id := uri]> uris
    | _, _ => uris
    end
  else uris.

Definition sentence_uris (sentence_id : Z) (l : list saf_token) : gmap Z string :=
  fold_left (uris_step sentence_id) l ∅.

Definition sentence_facts (sentence_id : Z) (l : list saf_token) : list fact :=
  flat_map (λ token,
    if in_sentence sentence_id token then
      match token_uri token with
      | Some uri => token_facts uri token
      | None => []
      end
    else []) l.

(** the facts of the dependencies between two tokens of the sentence *)
Definition edge_facts (uris : gmap Z string) (deps : list dependency) : list fact :=
  flat_map (λ dep,
    match as_int (child dep) ≫= (uris !!.), as_int (parent dep) ≫= (uris !!.) with
    | Some child, Some parent => dependency_facts child parent dep
    | _, _ => []
    end) deps.

Definition expected_facts (article : saf_article) (sentence_id : Z) : list fact :=
  sentence_facts sentence_id (tokens article)
  ++ edge_facts (sentence_uris sentence_id (tokens article)) (dependencies article).

(** A token has a sentence number, and a token of the sentence has a
    lemma and a numeric id. *)
Definition token_wf (sentence_id : Z) (token : saf_token) : Prop :=
  is_Some (token_sentence token)
  ∧ (in_sentence sentence_id token = true →
     is_Some (token_uri token) ∧ is_Some (token_id token)).

(** The child and the parent of a dependency are numbers. *)
Definition dependency_wf (dep : dependency) : Prop :=
  is_Some (as_int (child dep)) ∧ is_Some (as_int (parent dep)).

(** The child of a dependency is a number, and a dependency whose child
    is a token of the sentence has its parent among them too. *)
Definition dependency_closed (uris : gmap Z string) (dep : dependency) : Prop :=
  is_Some (as_int (child dep))
  ∧ (is_Some (as_int (child dep) ≫= (uris !!.)) →
     is_Some (as_int (parent dep) ≫= (uris !!.))).

(** The number [i] is the id of a token of the sentence. *)
Definition id_in_sentence (sentence_id : Z) (l : list saf_token) (i : Z) : Prop :=
  ∃ token, token ∈ l ∧ in_sentence sentence_id token = true
           ∧ token_id token = Some i.

(** The edge a dependency between two tokens of the sentence becomes, with
    the predicate [pred]. *)
Definition dependency_edges (pred : dependency → string) (uris : gmap Z string)
    (deps : list dependency) : list Triple :=
  flat_map (λ dep,
    match as_int (child dep) ≫= (uris !!.), as_int (parent dep) ≫= (uris !!.) with
    | Some child, Some parent => [mkTriple child (pred dep) parent]
    | _, _ => []
    end) deps.


End Saf.

(** ** The materialised view as the specification words it *)

(** A predicate is excluded from the edges when it is [rel] while
    [ignore_rel] holds, starts with [rel_] while [ignore_grammatical] holds,
    is missing from a non-empty [filter_predicate], or is [rdf:type]. *)
Definition excluded_by_options (ignore_rel ignore_grammatical : bool)
    (filter_predicate : option filter_arg) (pred : string) : Prop :=
  (ignore_rel = true ∧ pred = "rel")
  ∨ (ignore_grammatical = true ∧ Py.startswith pred "rel_" = true)
  ∨ (∃ l, normalize_filter filter_predicate = Some l ∧ l ≠ [] ∧ pred ∉ l)
  ∨ pred = RDF_TYPE.

(** The edge a fact stands for, if any. *)
Definition edge_of (keep : string → bool) (t : fact) : option Triple :=
  match t with
  | (s, p, URIRef o) =>
      let pred := Py.replace p BASE EmptyString in
      if keep pred then Some (mkTriple s pred o) else None
  | (_, _, Literal _) => None
  end.

(** The values of the literal facts of subject [s] whose base-stripped
    predicate is [a], in the order of the store. *)
Fixpoint literal_values (store : list fact) (s a : string) : list string :=
  match store with
  | [] => []
  | (s', p, Literal v) :: rest =>
      if String.eqb s' s && String.eqb (Py.replace p BASE EmptyString) a
      then v :: literal_values rest s a
      else literal_values rest s a
  | (_, _, URIRef _) :: rest => literal_values rest s a
  end.

Definition join_values (l : list string) : option string :=
  match l with
  | [] => None
  | _ => Some (Py.join "; " l)
  end.

(** What a fresh node already holds under an attribute name. *)
Definition initial_values (key a : string) : list string :=
  if String.eqb a "uri" then [key] else [].

(** The attribute [a] of the node kept under [key], if both exist. *)
Definition attribute (v : view) (key a : string) : option string :=
  nodes v !! key ≫= (.!! a).


(** An identifier the node table has a reason to hold: the subject of a
    fact, or the object of a fact that became an edge. *)
Definition has_node_reference (keep : string → bool) (store : list fact)
    (k : string) : Prop :=
  (∃ p o, (k, p, o) ∈ store)
  ∨ (∃ s p, (s, p, URIRef k) ∈ store ∧ keep (Py.replace p BASE EmptyString) = true).

(** The attributes of the table's nodes are the joined literal values seen
    so far; an identifier without a node has had no literal fact. *)
Definition nodes_inv (seen : list fact) (ns : gmap string Node) : Prop :=
  ∀ k a,
    match ns !! k with
    | Some n => n !! a = join_values (initial_values k a ++ literal_values seen k a)
    | None => literal_values seen k a = []
    end.

(** The token table holds the subjects of the literal facts seen so far,
    each with the last value of each of its predicates. *)
Definition tokens_inv (seen : list fact)
    (tokens : gmap string (gmap string string)) : Prop :=
  ∀ k,
    match tokens !! k with
    | Some d => ∀ a, d !! a = last (literal_values seen k a)
    | None => ∀ p v, (k, p, Literal v) ∉ seen
    end.

(** The projection of one edge to the identifiers of its two nodes. *)
Definition project (ns : gmap string Node) (t : Triple) : option minimal_triple :=
  s ← ns !! subject t ≫= (.!! "id");
  o ← ns !! obj t ≫= (.!! "id");
  Some (mkMinimal s (predicate t) o).

(** ** The lexicon pass as the specification words it *)


(** The lemmas of an entry that match a token with this [pos] and this
    lower-cased lemma. *)
Definition matching_targets (lex : LexEntry) (pos lemma : string) : list string :=
  if pos_differs lex pos then []
  else filter (λ target, target_matches target lemma = true)
         (lemmata_of (lex_lemma lex)).


(** The class of every match, entry by entry and lemma by lemma. *)
Definition matching_classes (lexicon : list LexEntry) (pos lemma : string)
    : list string :=
  flat_map (λ lex, map (λ _, lex_lexclass lex) (matching_targets lex pos lemma))
    lexicon.

Definition token_classes (lexicon : list LexEntry) (token : gmap string string)
    : list string :=
  match token !! "pos", token !! "lemma" with
  | Some pos, Some lemma => matching_classes lexicon pos (Py.lower lemma)
  | _, _ => []
  end.





(** ** [SyntaxTree.apply_rule] and [SyntaxTree.apply_ruleset] *)

(** A call of [self.soh.update], by its keyword arguments ([None]: the
    argument is not passed). *)
Record update_call : Type := mkCall {
  call_where : option string;
  call_insert : option string;
  call_delete : option string
}.

(** [self.soh.update(insert=insert)], the call of a lexicon match *)
Definition lexicon_call (u : lexclass_insert) : update_call :=
  mkCall None (Some (insert_text u)) None.

(** [rule.get(key, '')] *)
Definition get_or_empty (rule : gmap string string) (key : string) : string :=
  default EmptyString (rule !! key).

(** A rule is a dict with [condition] and, optionally, [insert] and
    [delete]. *)
Definition apply_rule (rule : gmap string string) : emitter update_call unit :=
  condition ← getitem rule "condition";
  emit (mkCall (Some condition) (Some (get_or_empty rule "insert"))
          (Some (get_or_empty rule "delete"))).

(** A ruleset is a dict that should hold [lexicon] and [rules]. *)
Record Ruleset : Type := mkRuleset {
  rs_lexicon : option (list LexEntry);
  rs_rules : option (list (gmap string string))
}.

(** [ruleset[key]] *)
Definition ruleset_getitem {W A : Type} (field : option A) (key : string)
    : emitter W A :=
  match field with
  | Some x => mret x
  | None => raise (Py.KeyError key)
  end.

(** the same run, its effects seen as calls of the backend *)
Definition as_calls {A : Type} (m : emitter lexclass_insert A)
    : emitter update_call A :=
  (map lexicon_call m.1, m.2).

(** [apply_ruleset] on a store: the lexicon pass, then the rules in order. *)
Definition apply_ruleset (store : list fact) (ruleset : Ruleset)
    : emitter update_call unit :=
  lexicon ← ruleset_getitem (rs_lexicon ruleset) "lexicon";
  as_calls (apply_lexicon store lexicon);;
  rules ← ruleset_getitem (rs_rules ruleset) "rules";
  for_each rules apply_rule.

(** The call a rule with a condition issues. *)
Definition rule_call (rule : gmap string string) : update_call :=
  mkCall (rule !! "condition") (Some (get_or_empty rule "insert"))
    (Some (get_or_empty rule "delete")).

(** ** [SyntaxTree.get_graphviz] *)


(** [x in s] for two texts *)
Fixpoint str_contains (s x : string) : bool :=
  Py.startswith s x ||
  match s with
  | EmptyString => false
  | String _ s' => str_contains s' x
  end.

Fixpoint has_slash (s : string) : bool :=
  match s with
  | EmptyString => false
  | String c s' => Ascii.eqb c "/" || has_slash s'
  end.

(** [s.split("/")[-1]] *)
Fixpoint last_segment (s : string) : string :=
  match s with
  | EmptyString => EmptyString
  | String c s' =>
      if has_slash s' then last_segment s'
      else if Ascii.eqb c "/" then s' else s
  end.


(** A triple as the caller's function sees it: with its two nodes. *)
Record node_triple : Type := mkNodeTriple {
  nt_subject : Node;
  nt_predicate : string;
  nt_object : Node
}.

(** [VIS_GREY_REL] *)
Definition VIS_GREY_REL (t : node_triple) : gmap string string :=
  if str_contains (nt_predicate t) "rel_" then {[ "color" := "grey" ]} else ∅.










(** The name of the node kept under [key], and its label. *)
Definition node_name (v : view) (key : string) : string :=
  last_segment (default EmptyString (node_at key (nodes v) !! "uri")).




(** ** Sample stores *)

(** One [rel] fact from the dog to the verb. *)
Definition store_rel_only : list fact :=
  [(NS_BASE "t_1_dog", NS_BASE "rel", URIRef (NS_BASE "t_2_bark"))].




(** A token [run] and lexicons for it. *)
Definition store_run : list fact :=
  [(NS_BASE "t_1_run", NS_BASE "pos", Literal "V");
   (NS_BASE "t_1_run", NS_BASE "lemma", Literal "Run")].



Definition lexicon_two_entries : list LexEntry :=
  [mkLex "motion" (LList ["run"; "walk"]) (Some "V");
   mkLex "noun" (LStr "run") (Some "N");
   mkLex "activity" (LStr "ru*") None].



(** A token without [pos]. *)
Definition store_no_pos : list fact :=
  [(NS_BASE "t_1_run", NS_BASE "lemma", Literal "run")].

(** A sentence of two tokens, a token of another sentence, a dependency
    that leaves the sentence and one that stays in it. *)
Definition token_dog : saf_token :=
  [("id", JInt 1); ("sentence", JInt 1); ("lemma", JStr "dog"); ("pos", JStr "N")].
Definition token_bark : saf_token :=
  [("id", JInt 2); ("sentence", JInt 1); ("lemma", JStr "bark"); ("pos", JStr "V")].
Definition token_other : saf_token :=
  [("id", JInt 3); ("sentence", JInt 2); ("lemma", JStr "cat"); ("pos", JStr "N")].

Definition article_closed : saf_article :=
  mkArticle [token_dog; token_bark; token_other]
    [mkDep (JInt 1) (JInt 2) (JStr "nsubj")].

Definition article_crossing : saf_article :=
  mkArticle [token_dog; token_bark; token_other]
    [mkDep (JInt 1) (JInt 3) (JStr "conj"); mkDep (JInt 1) (JInt 2) (JStr "nsubj")].

(** [unidecode] on text that is ASCII already, and no text read as a number *)
Definition ascii_library : Library :=
  {| unidecode := λ s, s; int_of_text := λ _, None |}.

(** A sentence as it is stored: two tokens with their ids and words, and
    the two facts of one dependency. *)
Definition store_sentence : list fact :=
  [(NS_BASE "t_1_dog", NS_BASE "id", Literal "1");
   (NS_BASE "t_1_dog", NS_BASE "word", Literal "Dogs");
   (NS_BASE "t_1_dog", NS_BASE "lemma", Literal "dog");
   (NS_BASE "t_1_dog", NS_BASE "pos", Literal "N");
   (NS_BASE "t_2_bark", NS_BASE "id", Literal "2");
   (NS_BASE "t_2_bark", NS_BASE "word", Literal "bark");
   (NS_BASE "t_2_bark", NS_BASE "lemma", Literal "bark");
   (NS_BASE "t_2_bark", NS_BASE "pos", Literal "V");
   (NS_BASE "t_1_dog", NS_BASE "rel_nsubj", URIRef (NS_BASE "t_2_bark"));
   (NS_BASE "t_1_dog", NS_BASE "rel", URIRef (NS_BASE "t_2_bark"))].

(** Tokens in an order of iteration: a complete one, then one without
    [pos], then a complete one. *)
Definition items_partial : list (string * gmap string string) :=
  [(NS_BASE "t_1_run", {[ "pos" := "V"; "lemma" := "run" ]});
   (NS_BASE "t_2_dog", {[ "lemma" := "dog" ]});
   (NS_BASE "t_3_walk", {[ "pos" := "V"; "lemma" := "walk" ]})].

Definition lexicon_motion : list LexEntry :=
  [mkLex "motion" (LList ["run"; "walk"]) (Some "V")].

(** Rules: one with everything, one with a condition and an insert, one
    without a condition. *)
Definition rule_full : gmap string string :=
  {[ "condition" := "?x :lemma 'dog'"; "insert" := "?x :lexclass 'animal'";
     "delete" := "?x :pos 'X'" ]}.
Definition rule_insert_only : gmap string string :=
  {[ "condition" := "?x :pos 'V'"; "insert" := "?x :lexclass 'verb'" ]}.
Definition rule_no_condition : gmap string string :=
  {[ "insert" := "?x :lexclass 'lost'" ]}.

(** A token without a [sentence] field, and an article that holds it. *)
Definition token_unplaced : saf_token :=
  [("id", JInt 9); ("lemma", JStr "lost")].

Definition article_unplaced : saf_article :=
  mkArticle [token_dog; token_unplaced; token_bark]
    [mkDep (JInt 1) (JInt 2) (JStr "nsubj")].

(** * Properties *)

(** ** The string methods on samples *)

Example replace_base : Py.replace (NS_BASE "rel_nsubj") BASE EmptyString = "rel_nsubj".
Proof. reflexivity. Qed.

Example replace_twice : Py.replace "a--b--c-" "--" "+" = "a+b+c-".
Proof. reflexivity. Qed.

Example replace_left_to_right : Py.replace "aaa" "aa" "b" = "ba".
Proof. reflexivity. Qed.

Example lower_mixed : Py.lower "Running_2" = "running_2".
Proof. reflexivity. Qed.

Example wildcard_target :
  Py.endswith "run*" "*" = true ∧ Py.drop_last "run*" = "run"
  ∧ target_matches "run*" "running" = true ∧ target_matches "run" "running" = false.
Proof. repeat split. Qed.

Example star_alone : target_matches "*" "anything" = true.
Proof. reflexivity. Qed.

Example join_three : Py.join "; " ["a"; "b"; "c"] = "a; b; c".
Proof. reflexivity. Qed.

Example insert_text_sample :
  insert_text (mkInsert ":t_1_run" "motion")
  = ":t_1_run :lexclass " +:+ quote +:+ "motion" +:+ quote.
Proof. reflexivity. Qed.

Section StringFacts.

Lemma str_app_cons (x : ascii) (a b : string) :
  String x a +:+ b = String x (a +:+ b).
Proof. reflexivity. Qed.

Lemma str_app_assoc (a b c : string) : (a +:+ b) +:+ c = a +:+ (b +:+ c).
Proof.
  induction a as [|x a IH]; [done|]. by rewrite !str_app_cons, IH.
Qed.

Lemma existsb_eqb_elem_of (x : string) (l : list string) :
  existsb (String.eqb x) l = true ↔ x ∈ l.
Proof.
  rewrite existsb_exists. split.
  - intros (y & Hy & Heq). apply String.eqb_eq in Heq. subst.
    by apply list_elem_of_In.
  - intros Hx. exists x. split; [by apply list_elem_of_In | apply String.eqb_refl].
Qed.

Lemma join_cons (sep x y : string) (l : list string) :
  Py.join sep (x :: y :: l) = x +:+ sep +:+ Py.join sep (y :: l).
Proof. reflexivity. Qed.

Lemma join_snoc (l : list string) (v : string) :
  join_values (l ++ [v]) =
  Some (match join_values l with Some old => old +:+ "; " +:+ v | None => v end).
Proof.
  destruct l as [|x l]; [done|]. unfold join_values. simpl app.
  f_equal. revert x. induction l as [|y l IH]; intros x; [done|].
  simpl app. rewrite !join_cons, (IH y). by rewrite !str_app_assoc.
Qed.

End StringFacts.

(** ** The loop of [get_triples] *)

Section Materialize.

Variables ignore_rel ignore_grammatical : bool.
Variable f : option (list string).

Let step := get_triples_step ignore_rel ignore_grammatical f.
Let keep (pred : string) : bool :=
  negb (excluded ignore_rel ignore_grammatical f pred).

Lemma setdefault_lookup (key k : string) (ns : gmap string Node) :
  setdefault key ns !! k =
  if decide (key = k) then Some (node_at key ns) else ns !! k.
Proof.
  unfold setdefault, node_at. case_decide as Hk.
  - subst. destruct (ns !! k) eqn:E; [done | by rewrite lookup_insert_eq].
  - destruct (ns !! key); [done | by rewrite lookup_insert_ne].
Qed.

Lemma step_result (st : view) (t : fact) :
  result (step st t) = result st ++ option_list (edge_of keep t).
Proof.
  destruct t as [[s p] [v|o]]; unfold step, keep; simpl.
  - by rewrite app_nil_r.
  - destruct (excluded _ _ _ _); simpl; [by rewrite app_nil_r | done].
Qed.

Lemma fold_result (store : list fact) (st : view) :
  result (fold_left step store st) = result st ++ omap (edge_of keep) store.
Proof.
  revert st. induction store as [|t store IH]; intros st; simpl.
  - by rewrite app_nil_r.
  - rewrite IH, step_result. destruct (edge_of keep t); simpl.
    + by rewrite <- app_assoc.
    + by rewrite app_nil_r.
Qed.

(** The keys of the node table after one more fact. *)
Lemma step_nodes_is_Some (st : view) (t : fact) (k : string) :
  is_Some (nodes (step st t) !! k) ↔
  is_Some (nodes st !! k) ∨ k = t.1.1 ∨
  (∃ o, t.2 = URIRef o ∧ k = o ∧ keep (Py.replace t.1.2 BASE EmptyString) = true).
Proof.
  destruct t as [[s p] [v|o]]; unfold step, keep; simpl.
  - rewrite lookup_insert, setdefault_lookup.
    case_decide; subst.
    + split; [intros _; by right; left | eauto].
    + split; [by left|]. intros [?|[?|(o & ? & _)]]; done.
  - destruct (excluded _ _ _ _); simpl; rewrite !setdefault_lookup.
    + case_decide; subst.
      * split; [by right; left | eauto].
      * split; [by left|]. intros [?|[?|(o' & ? & ? & ?)]]; done.
    + repeat case_decide; subst.
      * split; [intros _; right; right; eauto | eauto].
      * split; [by right; left | eauto].
      * split; [by left|].
        intros [?|[?|(o' & Ho & ? & ?)]]; [done|done|]. by simplify_eq.
Qed.

Lemma fold_nodes_is_Some (store : list fact) (st : view) (k : string) :
  is_Some (nodes (fold_left step store st) !! k) ↔
  is_Some (nodes st !! k) ∨ has_node_reference keep store k.
Proof.
  revert st. induction store as [|t store IH]; intros st; simpl.
  - split; [by left|]. intros [?|[(p & o & H)|(s & p & H & _)]]; [done|..];
      by apply not_elem_of_nil in H.
  - rewrite IH, step_nodes_is_Some. unfold has_node_reference.
    destruct t as [[s p] o]; simpl. split.
    + intros [[?|[->|(o' & -> & -> & Hk)]]|[(p' & o' & H)|(s' & p' & H & Hk)]].
      * by left.
      * right; left. exists p, o. apply elem_of_cons. by left.
      * right; right. exists s, p. split; [|done]. apply elem_of_cons. by left.
      * right; left. exists p', o'. apply elem_of_cons. by right.
      * right; right. exists s', p'. split; [|done]. apply elem_of_cons. by right.
    + intros [?|[(p' & o' & H)|(s' & p' & H & Hk)]].
      * by left; left.
      * apply elem_of_cons in H as [H|H]; [simplify_eq; left; right; by left|].
        right; left; eauto.
      * apply elem_of_cons in H as [H|H].
        -- simplify_eq. left; right; right. eauto.
        -- right; right; eauto.
Qed.

Lemma literal_values_app (l1 l2 : list fact) (s a : string) :
  literal_values (l1 ++ l2) s a = literal_values l1 s a ++ literal_values l2 s a.
Proof.
  induction l1 as [|[[s' p] [v|o]] l1 IH]; simpl; [done| |done].
  destruct (_ && _); simpl; by rewrite IH.
Qed.

Lemma Node_new_lookup (k a : string) :
  Node_new k !! a = join_values (initial_values k a).
Proof.
  unfold Node_new, initial_values.
  destruct (String.eqb_spec a "uri") as [->|Hne].
  - by rewrite lookup_singleton_eq.
  - by rewrite lookup_singleton_ne.
Qed.

Lemma nodes_inv_node_at (seen : list fact) (ns : gmap string Node) (k a : string) :
  nodes_inv seen ns →
  node_at k ns !! a = join_values (initial_values k a ++ literal_values seen k a).
Proof.
  intros Hinv. specialize (Hinv k a). unfold node_at.
  destruct (ns !! k); [done|]. by rewrite Hinv, app_nil_r, Node_new_lookup.
Qed.

Lemma nodes_inv_setdefault (seen : list fact) (ns : gmap string Node) (key : string) :
  nodes_inv seen ns → nodes_inv seen (setdefault key ns).
Proof.
  intros Hinv k a. rewrite setdefault_lookup. case_decide; subst.
  - by apply nodes_inv_node_at.
  - apply Hinv.
Qed.

Lemma step_nodes_inv (seen : list fact) (st : view) (t : fact) :
  nodes_inv seen (nodes st) → nodes_inv (seen ++ [t]) (nodes (step st t)).
Proof.
  intros Hinv. destruct t as [[s p] [v|o]]; unfold step; simpl.
  - intros k a. rewrite literal_values_app. simpl.
    rewrite lookup_insert. case_decide as Hk; subst.
    + rewrite String.eqb_refl. simpl. unfold setattr.
      rewrite lookup_insert. case_decide as Ha; subst.
      * rewrite String.eqb_refl, app_assoc, join_snoc.
        by rewrite <- (nodes_inv_node_at _ _ _ _ Hinv).
      * apply String.eqb_neq in Ha. rewrite Ha, app_nil_r.
        by apply nodes_inv_node_at.
    + assert (String.eqb s k = false) as -> by by apply String.eqb_neq.
      simpl. rewrite app_nil_r. by apply nodes_inv_setdefault.
  - assert (nodes_inv (seen ++ [(s, p, URIRef o)]) (setdefault s (nodes st))) as H.
    { intros k a. rewrite literal_values_app; simpl. rewrite app_nil_r.
      by apply nodes_inv_setdefault. }
    destruct (excluded _ _ _ _); simpl; [done|]. by apply nodes_inv_setdefault.
Qed.

Lemma fold_nodes_inv (store seen : list fact) (st : view) :
  nodes_inv seen (nodes st) →
  nodes_inv (seen ++ store) (nodes (fold_left step store st)).
Proof.
  revert seen st. induction store as [|t store IH]; intros seen st Hinv; simpl.
  - by rewrite app_nil_r.
  - replace (seen ++ t :: store) with ((seen ++ [t]) ++ store)
      by by rewrite <- app_assoc.
    by apply IH, step_nodes_inv.
Qed.

End Materialize.

(** ** [get_triples]: edges, nodes and attributes *)

Section GetTriples.

Lemma filtered_out_spec (fl : option (list string)) (pred : string) :
  filtered_out fl pred = true ↔ ∃ l, fl = Some l ∧ l ≠ [] ∧ pred ∉ l.
Proof.
  destruct fl as [[|x l]|]; simpl.
  - split; [done|]. by intros (l & [= <-] & ? & _).
  - change (negb (existsb (String.eqb pred) (x :: l)) = true
            ↔ ∃ l0, Some (x :: l) = Some l0 ∧ l0 ≠ [] ∧ pred ∉ l0).
    rewrite negb_true_iff, <- not_true_iff_false, existsb_eqb_elem_of.
    split; [intros H; by exists (x :: l) | by intros (l' & [= <-] & _ & H)].
  - split; [done|]. by intros (l & ? & _).
Qed.

Lemma excluded_spec (ir ig : bool) (fp : option filter_arg) (pred : string) :
  excluded ir ig (normalize_filter fp) pred = true
  ↔ excluded_by_options ir ig fp pred.
Proof.
  unfold excluded, excluded_by_options.
  rewrite !orb_true_iff, !andb_true_iff, !String.eqb_eq, filtered_out_spec.
  tauto.
Qed.

Lemma kept_spec (ir ig : bool) (fp : option filter_arg) (pred : string) :
  negb (excluded ir ig (normalize_filter fp) pred) = true
  ↔ ¬ excluded_by_options ir ig fp pred.
Proof.
  rewrite negb_true_iff, <- not_true_iff_false. by rewrite excluded_spec.
Qed.

Lemma empty_nodes_inv : nodes_inv [] ∅.
Proof. intros k a. by rewrite lookup_empty. Qed.

(** The attributes of every node of the view, [uri] included. *)
Lemma materialize_attribute (ir ig : bool) (fl : option (list string))
    (store : list fact) (k : string) (n : Node) (a : string) :
  nodes (materialize ir ig fl store) !! k = Some n →
  n !! a = join_values (initial_values k a ++ literal_values store k a).
Proof.
  intros Hn.
  pose proof (fold_nodes_inv ir ig fl store [] (mkView ∅ []) empty_nodes_inv k a) as H.
  unfold materialize in Hn. simpl in H. by rewrite Hn in H.
Qed.


Lemma minimal_view_spec (ns : gmap string Node) (l : list Triple) :
  minimal_view ns l =
  match mapM (project ns) l with
  | Some r => inr r
  | None => inl (Py.AttributeError "id")
  end.
Proof.
  induction l as [|t l IH]; [done|]. cbn [minimal_view]. rewrite IH.
  change (mapM (project ns) (t :: l))
    with (y ← project ns t; k ← mapM (project ns) l; mret (y :: k)).
  unfold project, get_id.
  destruct (ns !! subject t ≫= _) as [s|]; simpl; [|done].
  destruct (ns !! obj t ≫= _) as [o|]; simpl; [|done].
  by destruct (mapM _ l).
Qed.



(** C9. A [filter_predicate] given as one string gives the result of the
    list holding that string. *)
Theorem get_triples_filter_string (store : list fact) (ignore_rel : bool)
    (s : string) (ignore_grammatical minimal : bool) :
  get_triples store ignore_rel (Some (FStr s)) ignore_grammatical minimal
  = get_triples store ignore_rel (Some (FList [s])) ignore_grammatical minimal.
Proof. reflexivity. Qed.








(** A [rel] fact is no edge under [ignore_rel], and is one without it. *)
Example rel_excluded :
  result (materialize true false None store_rel_only) = []
  ∧ result (materialize false false None store_rel_only)
    = [mkTriple (NS_BASE "t_1_dog") "rel" (NS_BASE "t_2_bark")].
Proof. split; reflexivity. Qed.

End GetTriples.

(** ** Loops that emit *)

Section Emitter.

Context {W A : Type}.

Lemma bind_emitted_ok {B C : Type} (m : emitter W B) (k : B → emitter W C)
    (ws : list W) (b : B) :
  m = (ws, inr b) → m ≫= k = (ws ++ (k b).1, (k b).2).
Proof. intros ->. unfold mbind, emitter_bind. by destruct (k b). Qed.

(** A loop whose body never raises emits what its rounds emit. *)
Lemma for_each_ok (l : list A) (body : A → emitter W unit) (out : A → list W) :
  (∀ x, x ∈ l → body x = (out x, inr tt)) →
  for_each l body = (flat_map out l, inr tt).
Proof.
  induction l as [|x l IH]; intros H; [done|]. simpl.
  rewrite (bind_emitted_ok _ _ (out x) tt); [|apply H, elem_of_cons; by left].
  rewrite IH; [done|]. intros y Hy. apply H, elem_of_cons. by right.
Qed.

(** A loop with a round that raises ends raising, with the exception of
    its first such round. *)
Lemma for_each_raises (Q : Py.exn → Prop) (l : list A)
    (body : A → emitter W unit) :
  (∀ x, x ∈ l → outcome (body x) = inr tt
                ∨ ∃ e, outcome (body x) = inl e ∧ Q e) →
  (∃ x, x ∈ l ∧ outcome (body x) ≠ inr tt) →
  ∃ e, outcome (for_each l body) = inl e ∧ Q e.
Proof.
  induction l as [|x l IH]; intros Hall (y & Hy & Hne).
  - by apply not_elem_of_nil in Hy.
  - simpl. destruct (body x) as [ws [e|[]]] eqn:Hx.
    + exists e. split; [done|].
      destruct (Hall x) as [H|(e' & H & HQ)]; [apply elem_of_cons; by left|..];
        rewrite Hx in H; simpl in H; by simplify_eq.
    + destruct IH as (e & He & HQ).
      * intros z Hz. apply Hall, elem_of_cons. by right.
      * apply elem_of_cons in Hy as [->|Hy]; [by rewrite Hx in Hne|eauto].
      * exists e. split; [|done]. unfold mbind, emitter_bind.
        destruct (for_each l body) as [ws' r]. by simpl in *.
Qed.

End Emitter.

(** ** The lexicon pass *)

Section Lexicon.



Lemma targets_loop (uri lexclass lemma : string) (lemmata : list string) :
  for_each lemmata (λ target,
    if target_matches target lemma then emit (mkInsert uri lexclass) else mret tt)
  = (map (λ _, mkInsert uri lexclass)
       (filter (λ target, target_matches target lemma = true) lemmata), inr tt).
Proof.
  rewrite (for_each_ok _ _ (λ target,
    if target_matches target lemma then [mkInsert uri lexclass] else [])).
  - f_equal. induction lemmata as [|t l IH]; [done|]. simpl.
    rewrite filter_cons. destruct (target_matches t lemma) eqn:E.
    + rewrite decide_True by done. simpl. by rewrite IH.
    + rewrite decide_False by done. by rewrite IH.
  - intros t _. by destruct (target_matches t lemma).
Qed.

Lemma apply_entry_spec (uri pos lemma : string) (lex : LexEntry) :
  apply_entry uri pos lemma lex
  = (map (λ _, mkInsert uri (lex_lexclass lex)) (matching_targets lex pos lemma),
     inr tt).
Proof.
  unfold apply_entry, matching_targets.
  destruct (pos_differs lex pos); [done|]. apply targets_loop.
Qed.

Lemma entries_loop (uri pos lemma : string) (lexicon : list LexEntry) :
  for_each lexicon (apply_entry uri pos lemma)
  = (map (mkInsert uri) (matching_classes lexicon pos lemma), inr tt).
Proof.
  rewrite (for_each_ok _ _ (λ lex,
    map (λ _, mkInsert uri (lex_lexclass lex)) (matching_targets lex pos lemma)));
    [|intros lex _; apply apply_entry_spec].
  f_equal. unfold matching_classes.
  induction lexicon as [|lex lexicon IH]; [done|]. simpl.
  rewrite map_app, IH. f_equal. by rewrite map_map.
Qed.

Lemma apply_token_spec (lexicon : list LexEntry) (uri : string)
    (token : gmap string string) :
  apply_token lexicon (uri, token) =
  match token !! "pos", token !! "lemma" with
  | Some _, Some _ =>
      (map (mkInsert (Py.replace uri BASE ":")) (token_classes lexicon token), inr tt)
  | Some _, None => ([], inl (Py.KeyError "lemma"))
  | None, _ => ([], inl (Py.KeyError "pos"))
  end.
Proof.
  unfold apply_token, token_classes, getitem.
  destruct (token !! "pos") as [p|]; [|done].
  destruct (token !! "lemma") as [l|]; [|done].
  unfold mbind, emitter_bind, mret, emitter_ret. by rewrite entries_loop.
Qed.


Lemma lexicon_pass_raises (lexicon : list LexEntry)
    (items : list (string * gmap string string)) (item : string * gmap string string) :
  item ∈ items →
  item.2 !! "pos" = None ∨ item.2 !! "lemma" = None →
  outcome (lexicon_pass lexicon items) = inl (Py.KeyError "pos")
  ∨ outcome (lexicon_pass lexicon items) = inl (Py.KeyError "lemma").
Proof.
  intros Hin Hmiss.
  destruct (for_each_raises
              (λ e, e = Py.KeyError "pos" ∨ e = Py.KeyError "lemma")
              items (apply_token lexicon)) as (e & He & [->| ->]); [| |by left|by right].
  - intros [uri token] _. rewrite apply_token_spec.
    destruct (token !! "pos"); [destruct (token !! "lemma")|]; simpl; eauto.
  - exists item. split; [done|]. destruct item as [uri token].
    rewrite apply_token_spec. simpl in Hmiss.
    destruct Hmiss as [-> | Hl]; [done|]. rewrite Hl. by destruct (token !! "pos").
Qed.

End Lexicon.

(** ** The token table *)

Section Tokens.

Lemma literal_values_elem_of (store : list fact) (k a v : string) :
  v ∈ literal_values store k a ↔
  ∃ p, (k, p, Literal v) ∈ store ∧ Py.replace p BASE EmptyString = a.
Proof.
  induction store as [|[[s p] [w|o]] store IH]; simpl.
  - split; [by intros ?%not_elem_of_nil | by intros (? & ?%not_elem_of_nil & _)].
  - destruct (String.eqb_spec s k) as [->|Hs];
      [destruct (String.eqb_spec (Py.replace p BASE EmptyString) a) as [Hp|Hp]|];
      simpl; rewrite ?elem_of_cons, IH; split.
    + intros [->|(q & ? & ?)]; [exists p; split; [by left|done]|].
      exists q. split; [by right|done].
    + intros (q & [?|?]%elem_of_cons & ?); [simplify_eq; by left|right; eauto].
    + intros (q & ? & ?). exists q. split; [by right|done].
    + intros (q & [?|?]%elem_of_cons & ?); [by simplify_eq|eauto].
    + intros (q & ? & ?). exists q. split; [by right|done].
    + intros (q & [?|?]%elem_of_cons & ?); [by simplify_eq|eauto].
  - rewrite IH. split.
    + intros (q & ? & ?). exists q. split; [by right|done].
    + intros (q & [?|?]%elem_of_cons & ?); [by simplify_eq|eauto].
Qed.

Lemma literal_values_none (store : list fact) (k a : string) :
  (∀ p v, (k, p, Literal v) ∉ store) → literal_values store k a = [].
Proof.
  intros H. destruct (literal_values store k a) as [|v l] eqn:E; [done|].
  assert (v ∈ literal_values store k a) as Hv by (rewrite E; by left).
  apply literal_values_elem_of in Hv as (p & Hp & _). by apply H in Hp.
Qed.

Lemma get_tokens_step_inv (seen : list fact)
    (tokens : gmap string (gmap string string)) (t : fact) :
  tokens_inv seen tokens → tokens_inv (seen ++ [t]) (get_tokens_step tokens t).
Proof.
  intros Hinv k. destruct t as [[s p] [v|o]]; simpl.
  - rewrite lookup_insert. case_decide as Hk; subst.
    + intros a. rewrite literal_values_app. simpl. rewrite String.eqb_refl. simpl.
      rewrite lookup_insert. case_decide as Ha; subst.
      * by rewrite String.eqb_refl, last_snoc.
      * apply String.eqb_neq in Ha. rewrite Ha, app_nil_r.
        specialize (Hinv k). destruct (tokens !! k) as [d|]; simpl; [done|].
        by rewrite lookup_empty, literal_values_none.
    + specialize (Hinv k). destruct (tokens !! k) as [d|].
      * intros a. rewrite literal_values_app. simpl.
        assert (String.eqb s k = false) as -> by by apply String.eqb_neq.
        simpl. by rewrite app_nil_r.
      * intros q w [?|?%list_elem_of_singleton]%elem_of_app; [by eapply Hinv|].
        by simplify_eq.
  - specialize (Hinv k). destruct (tokens !! k) as [d|].
    + intros a. rewrite literal_values_app. simpl. by rewrite app_nil_r.
    + intros q w [?|?%list_elem_of_singleton]%elem_of_app; [by eapply Hinv|done].
Qed.

Lemma get_tokens_fold_inv (store seen : list fact)
    (tokens : gmap string (gmap string string)) :
  tokens_inv seen tokens →
  tokens_inv (seen ++ store) (fold_left get_tokens_step store tokens).
Proof.
  revert seen tokens. induction store as [|t store IH]; intros seen tokens Hinv; simpl.
  - by rewrite app_nil_r.
  - replace (seen ++ t :: store) with ((seen ++ [t]) ++ store)
      by by rewrite <- app_assoc.
    by apply IH, get_tokens_step_inv.
Qed.

Lemma get_tokens_inv (store : list fact) : tokens_inv store (get_tokens store).
Proof.
  apply (get_tokens_fold_inv store [] ∅). intros k. rewrite lookup_empty.
  intros p v. apply not_elem_of_nil.
Qed.

(** A subject with a literal fact is a token, and a token holds the last
    value of each of its predicates. *)
Lemma get_tokens_token (store : list fact) (uri p v : string) :
  (uri, p, Literal v) ∈ store →
  ∃ token, get_tokens store !! uri = Some token
           ∧ ∀ a, token !! a = last (literal_values store uri a).
Proof.
  intros Hin. pose proof (get_tokens_inv store uri) as H.
  destruct (get_tokens store !! uri) as [d|]; [eauto|]. by apply H in Hin.
Qed.

End Tokens.

(** ** [apply_lexicon]: what is matched, and what a missing attribute does *)

Section LexiconClaims.




(** C7. A subject with a literal fact and no [pos], or no [lemma], makes
    the lexicon pass raise a [KeyError], whatever the lexicon. *)
Theorem apply_lexicon_missing_attribute (store : list fact)
    (lexicon : list LexEntry) (uri p v : string) :
  (uri, p, Literal v) ∈ store →
  literal_values store uri "pos" = [] ∨ literal_values store uri "lemma" = [] →
  outcome (apply_lexicon store lexicon) = inl (Py.KeyError "pos")
  ∨ outcome (apply_lexicon store lexicon) = inl (Py.KeyError "lemma").
Proof.
  intros Hin Hmiss. destruct (get_tokens_token _ _ _ _ Hin) as (token & Htok & Hattr).
  apply (lexicon_pass_raises lexicon _ (uri, token)).
  - by apply elem_of_map_to_list.
  - simpl. rewrite !Hattr. by destruct Hmiss as [-> | ->]; [left|right].
Qed.

Lemma apply_lexicon_missing_attribute_witness :
  outcome (apply_lexicon store_no_pos lexicon_two_entries) = inl (Py.KeyError "pos")
  ∨ outcome (apply_lexicon store_no_pos lexicon_two_entries)
    = inl (Py.KeyError "lemma").
Proof.
  apply (apply_lexicon_missing_attribute store_no_pos lexicon_two_entries
           (NS_BASE "t_1_run") (NS_BASE "lemma") "run").
  - apply elem_of_cons. by left.
  - left. reflexivity.
Defined.





(** A verb [run] and the entry ([run] or [walk], verb): one insert. *)
Example lexicon_sample :
  apply_lexicon
    [(NS_BASE "t_1_run", NS_BASE "pos", Literal "V");
     (NS_BASE "t_1_run", NS_BASE "lemma", Literal "run")]
    [mkLex "motion" (LList ["run"; "walk"]) (Some "V")]
  = ([mkInsert ":t_1_run" "motion"], inr tt).
Proof. reflexivity. Qed.

End LexiconClaims.

(** ** [apply_lexicon]: every match is applied *)

Section LexiconStacking.








End LexiconStacking.

(** ** [_saf_to_rdf] *)

Section SafFacts.

Context `{lib : Library}.

Lemma emitter_ret_bind {W B C : Type} (b : B) (k : B → emitter W C) :
  mret b ≫= k = k b.
Proof. unfold mbind, emitter_bind, mret, emitter_ret. by destruct (k b). Qed.

Lemma int_as_int {W : Type} (v : jval) (z : Z) :
  as_int v = Some z → int (W := W) v = mret z.
Proof. destruct v as [n|s]; simpl; [by intros [= ->] | by intros ->]. Qed.

Lemma getitem_int {W : Type} (token : saf_token) (key : string) (z : Z) :
  token_get token key ≫= as_int = Some z →
  token_getitem (W := W) token key ≫= int = mret z.
Proof.
  unfold token_getitem. destruct (token_get token key) as [v|]; [|done].
  simpl. intros H. by rewrite (int_as_int _ _ H).
Qed.

Lemma _token_uri_ok {W : Type} (token : saf_token) (uri : string) :
  token_uri token = Some uri → _token_uri (W := W) token = mret uri.
Proof.
  unfold token_uri, _token_uri, token_getitem.
  destruct (token_get token "lemma") as [l|]; [|done].
  destruct (token_get token "id") as [i|]; [|done]. simpl.
  intros [= <-]. done.
Qed.

Lemma attributes_loop (uri : string) (token : saf_token) :
  for_each token (λ '(k, v),
    emit (uri, NS_BASE k, Literal (unidecode (unicode v))))
  = (token_facts uri token, inr tt).
Proof.
  rewrite (for_each_ok _ _ (λ kv,
    [(uri, NS_BASE kv.1, Literal (unidecode (unicode kv.2)))])).
  - apply (f_equal (λ l, (l, inr tt))). unfold token_facts.
    induction token as [|kv token IH]; [done|]. simpl. by rewrite IH.
  - by intros [k v] _.
Qed.

(** The first loop, on well-formed tokens: it yields the facts of the
    tokens of the sentence and builds the table of their URIs. *)
Lemma token_loop_ok (sentence_id : Z) (l : list saf_token) (uris : gmap Z string) :
  Forall (token_wf sentence_id) l →
  token_loop sentence_id l uris
  = (sentence_facts sentence_id l, inr (fold_left (uris_step sentence_id) l uris)).
Proof.
  revert uris. induction l as [|token l IH]; intros uris Hwf; [done|].
  apply Forall_cons in Hwf as [[[s Hs] Htok] Hwf]. cbn [token_loop].
  rewrite (getitem_int _ _ _ Hs), emitter_ret_bind.
  cbn [fold_left sentence_facts flat_map].
  unfold uris_step at 2. unfold in_sentence in *.
  rewrite Hs in *. destruct (Z.eqb_spec s sentence_id) as [->|Hne].
  - rewrite bool_decide_eq_true_2 in * by done.
    destruct Htok as [[uri Huri] [i Hi]]; [done|]. rewrite Huri, Hi.
    rewrite (_token_uri_ok _ _ Huri), emitter_ret_bind, attributes_loop.
    rewrite (getitem_int _ _ _ Hi).
    rewrite (bind_emitted_ok _ _ (token_facts uri token) tt) by done.
    rewrite emitter_ret_bind, IH by done. done.
  - rewrite bool_decide_eq_false_2 by congruence. by rewrite IH.
Qed.

Lemma uris_fold_is_Some (sentence_id : Z) (l : list saf_token)
    (uris : gmap Z string) (i : Z) :
  Forall (token_wf sentence_id) l →
  is_Some (fold_left (uris_step sentence_id) l uris !! i)
  ↔ is_Some (uris !! i) ∨ id_in_sentence sentence_id l i.
Proof.
  revert uris. induction l as [|token l IH]; intros uris Hwf; simpl.
  - split; [by left|]. intros [?|(t & ?%not_elem_of_nil & _)]; done.
  - apply Forall_cons in Hwf as [[_ Htok] Hwf]. rewrite IH by done.
    unfold uris_step, id_in_sentence.
    destruct (in_sentence sentence_id token) eqn:Hin.
    + destruct Htok as [[uri ->] [j Hj]]; [done|]. rewrite Hj.
      rewrite lookup_insert. case_decide as Hij; subst.
      * split; [intros _|intros _; left; by eexists].
        right. exists token. split; [apply elem_of_cons; by left|done].
      * split.
        -- intros [?|(t & Ht & ? & ?)]; [by left|].
           right. exists t. split; [apply elem_of_cons; by right|done].
        -- intros [?|(t & [->|Ht]%elem_of_cons & ? & ?)]; [by left|congruence|].
           right. by exists t.
    + split.
      * intros [?|(t & Ht & ? & ?)]; [by left|].
        right. exists t. split; [apply elem_of_cons; by right|done].
      * intros [?|(t & [->|Ht]%elem_of_cons & ? & ?)]; [by left|congruence|].
        right. by exists t.
Qed.

(** The table of URIs holds exactly the ids of the sentence's tokens. *)
Lemma sentence_uris_is_Some (sentence_id : Z) (l : list saf_token) (i : Z) :
  Forall (token_wf sentence_id) l →
  is_Some (sentence_uris sentence_id l !! i) ↔ id_in_sentence sentence_id l i.
Proof.
  intros Hwf. unfold sentence_uris. rewrite uris_fold_is_Some by done.
  rewrite lookup_empty. split; [by intros [[? [=]]|?] | by right].
Qed.

Lemma dependency_step_outside (uris : gmap Z string) (dep : dependency) (c : Z) :
  as_int (child dep) = Some c → uris !! c = None →
  dependency_step uris dep = ([], inr tt).
Proof.
  intros Hc Hout. unfold dependency_step.
  rewrite (int_as_int _ _ Hc), emitter_ret_bind.
  rewrite bool_decide_eq_false_2; [done|]. rewrite Hout. by intros [? [=]].
Qed.

Lemma dependency_step_inside (uris : gmap Z string) (dep : dependency)
    (c p : Z) (cu : string) :
  as_int (child dep) = Some c → uris !! c = Some cu →
  as_int (parent dep) = Some p →
  dependency_step uris dep =
  match uris !! p with
  | Some pu => (dependency_facts cu pu dep, inr tt)
  | None => ([], inl (Py.KeyErrorInt p))
  end.
Proof.
  intros Hc Hin Hp. unfold dependency_step.
  rewrite (int_as_int _ _ Hc), emitter_ret_bind.
  rewrite bool_decide_eq_true_2 by (rewrite Hin; by eexists).
  rewrite emitter_ret_bind.
  unfold uri_getitem. rewrite Hin, emitter_ret_bind.
  rewrite (int_as_int _ _ Hp), emitter_ret_bind.
  destruct (uris !! p) as [pu|]; [|done]. by rewrite emitter_ret_bind.
Qed.

Lemma dependencies_loop_ok (uris : gmap Z string) (deps : list dependency) :
  Forall (dependency_closed uris) deps →
  for_each deps (dependency_step uris) = (edge_facts uris deps, inr tt).
Proof.
  intros Hcl. unfold edge_facts. apply for_each_ok. intros dep Hdep.
  rewrite Forall_forall in Hcl. destruct (Hcl dep Hdep) as [[c Hc] Hclosed].
  rewrite Hc in *. simpl in *. destruct (uris !! c) as [cu|] eqn:Hcu.
  - destruct Hclosed as [pu Hpu]; [by eexists|]. rewrite Hpu.
    destruct (as_int (parent dep)) as [p|] eqn:Hp; [|done]. simpl in Hpu.
    by rewrite (dependency_step_inside _ _ _ _ _ Hc Hcu Hp), Hpu.
  - by apply (dependency_step_outside _ _ c).
Qed.

(** C8, as the code has it. For an article whose tokens carry what the
    conversion reads and in which every dependency with its child in the
    sentence has its parent there too, the conversion completes and
    yields one literal fact per attribute of each token of the sentence,
    then two relation facts per dependency between tokens of the
    sentence, from the child's URI to the parent's. *)
Theorem saf_to_rdf_facts (article : saf_article) (sentence_id : Z) :
  Forall (token_wf sentence_id) (tokens article) →
  Forall (dependency_closed (sentence_uris sentence_id (tokens article)))
    (dependencies article) →
  _saf_to_rdf article sentence_id = (expected_facts article sentence_id, inr tt).
Proof.
  intros Hwf Hcl. unfold _saf_to_rdf, expected_facts.
  rewrite (bind_emitted_ok _ _ _ _ (token_loop_ok _ _ ∅ Hwf)).
  fold (sentence_uris sentence_id (tokens article)).
  by rewrite dependencies_loop_ok.
Qed.

(** C10. When a dependency has its child among the tokens of the sentence
    and its parent not among them, the conversion raises a [KeyError] on
    the id of such a parent. *)
Theorem saf_to_rdf_parent_outside (article : saf_article) (sentence_id : Z)
    (dep : dependency) (c p : Z) :
  Forall (token_wf sentence_id) (tokens article) →
  Forall dependency_wf (dependencies article) →
  dep ∈ dependencies article →
  as_int (child dep) = Some c → as_int (parent dep) = Some p →
  id_in_sentence sentence_id (tokens article) c →
  ¬ id_in_sentence sentence_id (tokens article) p →
  ∃ p', outcome (_saf_to_rdf article sentence_id) = inl (Py.KeyErrorInt p')
        ∧ ¬ id_in_sentence sentence_id (tokens article) p'.
Proof.
  intros Hwf Hdeps Hdep Hc Hp Hin Hout. unfold _saf_to_rdf.
  rewrite (bind_emitted_ok _ _ _ _ (token_loop_ok _ _ ∅ Hwf)).
  fold (sentence_uris sentence_id (tokens article)).
  set (uris := sentence_uris sentence_id (tokens article)).
  destruct (for_each_raises
              (λ e, ∃ p', e = Py.KeyErrorInt p' ∧ uris !! p' = None)
              (dependencies article) (dependency_step uris))
    as (e & He & p' & -> & Hp').
  - intros d Hd. rewrite Forall_forall in Hdeps.
    destruct (Hdeps d Hd) as [[c' Hc'] [q Hq]].
    destruct (uris !! c') as [cu|] eqn:Hcu.
    + rewrite (dependency_step_inside _ _ _ _ _ Hc' Hcu Hq).
      destruct (uris !! q) eqn:Hqu; [by left|right; eauto].
    + left. by rewrite (dependency_step_outside _ _ _ Hc' Hcu).
  - exists dep. split; [done|]. unfold uris.
    apply (sentence_uris_is_Some _ _ _ Hwf) in Hin as [cu Hcu].
    rewrite (dependency_step_inside _ _ _ _ _ Hc Hcu Hp).
    destruct (sentence_uris sentence_id (tokens article) !! p) eqn:Hpu; [|done].
    destruct Hout. apply (sentence_uris_is_Some _ _ _ Hwf). by eexists.
  - exists p'. split.
    + unfold outcome in *. simpl. by destruct (for_each _ _).
    + intros Hin'. apply (sentence_uris_is_Some _ _ _ Hwf) in Hin' as [? Hs].
      unfold uris in Hp'. congruence.
Qed.

End SafFacts.

(** ** [_saf_to_rdf] on the sample articles *)

Section SafSamples.

Existing Instance ascii_library.

Lemma sample_tokens_wf :
  Forall (token_wf 1) [token_dog; token_bark; token_other].
Proof.
  repeat constructor; try (by eexists); intros Hin;
    try (vm_compute in Hin; discriminate Hin); split; by eexists.
Qed.

Lemma saf_to_rdf_facts_witness :
  Forall (token_wf 1) (tokens article_closed)
  ∧ Forall (dependency_closed (sentence_uris 1 (tokens article_closed)))
      (dependencies article_closed)
  ∧ _saf_to_rdf article_closed 1 = (expected_facts article_closed 1, inr tt)
  ∧ length (emitted (_saf_to_rdf article_closed 1)) = 10.
Proof.
  assert (Forall (dependency_closed (sentence_uris 1 (tokens article_closed)))
            (dependencies article_closed)) as Hcl.
  { repeat constructor; [by eexists|]. intros _. by eexists. }
  split; [exact sample_tokens_wf|]. split; [exact Hcl|].
  pose proof (saf_to_rdf_facts article_closed 1 sample_tokens_wf Hcl) as Hrun.
  split; [exact Hrun|]. rewrite Hrun. reflexivity.
Defined.

(** C8, as stated, fails: the first dependency leaves the sentence, the
    conversion stops there, and the second one, between two tokens of the
    sentence, gets no fact. *)
Lemma saf_to_rdf_facts_counterexample :
  outcome (_saf_to_rdf article_crossing 1) = inl (Py.KeyErrorInt 3)
  ∧ emitted (_saf_to_rdf article_crossing 1) ≠ expected_facts article_crossing 1.
Proof. split; [reflexivity|]. vm_compute. discriminate. Qed.

Lemma saf_to_rdf_parent_outside_witness :
  id_in_sentence 1 (tokens article_crossing) 1
  ∧ ¬ id_in_sentence 1 (tokens article_crossing) 3
  ∧ ∃ p', outcome (_saf_to_rdf article_crossing 1) = inl (Py.KeyErrorInt p')
          ∧ ¬ id_in_sentence 1 (tokens article_crossing) p'.
Proof.
  assert (id_in_sentence 1 (tokens article_crossing) 1) as Hin.
  { exists token_dog. split; [apply elem_of_cons; by left|]. split; reflexivity. }
  assert (¬ id_in_sentence 1 (tokens article_crossing) 3) as Hout.
  { intros (t & Ht & Hs & Hi). simpl in Ht.
    repeat (apply elem_of_cons in Ht as [->|Ht]);
      [discriminate Hi|discriminate Hi|vm_compute in Hs; discriminate Hs|].
    by apply not_elem_of_nil in Ht. }
  split; [exact Hin|]. split; [exact Hout|].
  apply (saf_to_rdf_parent_outside article_crossing 1
           (mkDep (JInt 1) (JInt 3) (JStr "conj")) 1 3).
  - exact sample_tokens_wf.
  - repeat constructor; by eexists.
  - apply elem_of_cons. by left.
  - reflexivity.
  - reflexivity.
  - exact Hin.
  - exact Hout.
Defined.

End SafSamples.


(** * Further properties *)

(** ** The view of [get_triples] *)

Section ViewFacts.

Lemma materialize_result (ir ig : bool) (fl : option (list string))
    (store : list fact) :
  result (materialize ir ig fl store)
  = omap (edge_of (λ pred, negb (excluded ir ig fl pred))) store.
Proof. unfold materialize. by rewrite fold_result. Qed.

Lemma edge_of_Some (keep : string → bool) (f : fact) (t : Triple) :
  edge_of keep f = Some t ↔
  ∃ p, f = (subject t, p, URIRef (obj t))
       ∧ predicate t = Py.replace p BASE EmptyString
       ∧ keep (predicate t) = true.
Proof.
  destruct f as [[s p] [v|o]]; simpl.
  - split; [done|]. by intros (? & [=] & _).
  - destruct (keep (Py.replace p BASE EmptyString)) eqn:Hk; split.
    + intros [= <-]. by exists p.
    + intros (q & [= -> -> ->] & Hp & _). destruct t; simpl in *. by subst.
    + done.
    + intros (q & [= -> -> ->] & Hp & Hk'). congruence.
Qed.

(** X1. No edge dangles: both ends of every edge returned by
    [get_triples] are keys of the node table. *)
Theorem get_triples_edges_have_nodes (store : list fact) (ignore_rel : bool)
    (filter_predicate : option filter_arg) (ignore_grammatical : bool) :
  let v := materialize ignore_rel ignore_grammatical
             (normalize_filter filter_predicate) store in
  Forall (λ t, is_Some (nodes v !! subject t) ∧ is_Some (nodes v !! obj t))
    (result v).
Proof.
  intros v. apply Forall_forall. intros t Ht. unfold v in *.
  rewrite materialize_result in Ht.
  apply list_elem_of_omap in Ht as (f & Hf & Hedge).
  apply edge_of_Some in Hedge as (p & -> & Hp & Hk).
  unfold materialize. rewrite !fold_nodes_is_Some. split; right.
  - left. eauto.
  - right. exists (subject t), p. split; [done|]. by rewrite <- Hp.
Qed.

(** X2. The edges of a store in two parts are the edges of the first part
    followed by the edges of the second: an edge depends on its own fact
    only. *)
Theorem get_triples_edges_app (store1 store2 : list fact) (ignore_rel : bool)
    (filter_predicate : option filter_arg) (ignore_grammatical : bool) :
  result (materialize ignore_rel ignore_grammatical
            (normalize_filter filter_predicate) (store1 ++ store2))
  = result (materialize ignore_rel ignore_grammatical
              (normalize_filter filter_predicate) store1)
    ++ result (materialize ignore_rel ignore_grammatical
                 (normalize_filter filter_predicate) store2).
Proof. by rewrite !materialize_result, omap_app. Qed.

Lemma omap_sublist {A B : Type} (f g : A → option B) (l : list A) :
  (∀ x y, f x = Some y → g x = Some y) → omap f l `sublist_of` omap g l.
Proof.
  intros Hfg. induction l as [|x l IH]; simpl; [done|].
  destruct (f x) as [y|] eqn:Hf.
  - rewrite (Hfg _ _ Hf). by apply sublist_skip.
  - destruct (g x); [by apply sublist_cons | done].
Qed.

(** X3. The options only remove edges: whatever [ignore_rel],
    [ignore_grammatical] and [filter_predicate] are, the edges are a
    sublist, in the same order, of the edges obtained with
    [ignore_rel=False] and nothing else set. *)
Theorem get_triples_options_remove (store : list fact) (ignore_rel : bool)
    (filter_predicate : option filter_arg) (ignore_grammatical : bool) :
  result (materialize ignore_rel ignore_grammatical
            (normalize_filter filter_predicate) store)
  `sublist_of` result (materialize false false (normalize_filter None) store).
Proof.
  rewrite !materialize_result. apply omap_sublist. intros f t.
  rewrite !edge_of_Some. intros (p & -> & Hp & Hk). exists p.
  split; [done|]. split; [done|].
  apply negb_true_iff in Hk. apply negb_true_iff.
  unfold excluded in *. simpl.
  apply orb_false_iff in Hk as [_ Hk]. by rewrite Hk.
Qed.

(** X4. The [uri] attribute of a node is its identifier followed by the
    values of the literal facts with predicate [uri], if any: without such
    a fact it is the identifier itself. *)
Theorem get_triples_node_uri (store : list fact) (ignore_rel : bool)
    (filter_predicate : option filter_arg) (ignore_grammatical : bool) :
  map_Forall (λ k n,
      n !! "uri" = Some (Py.join "; " (k :: literal_values store k "uri")))
    (nodes (materialize ignore_rel ignore_grammatical
              (normalize_filter filter_predicate) store)).
Proof.
  intros k n Hn. by rewrite (materialize_attribute _ _ _ _ _ _ "uri" Hn).
Qed.

(** X5. No edge has the predicate [rdf:type]; under [ignore_rel] none has
    the predicate [rel], and under [ignore_grammatical] none has a
    predicate that starts with [rel_]. *)
Theorem get_triples_never (store : list fact) (ignore_rel : bool)
    (filter_predicate : option filter_arg) (ignore_grammatical : bool) :
  Forall (λ t,
      predicate t ≠ RDF_TYPE
      ∧ (ignore_rel = true → predicate t ≠ "rel")
      ∧ (ignore_grammatical = true → Py.startswith (predicate t) "rel_" = false))
    (result (materialize ignore_rel ignore_grammatical
               (normalize_filter filter_predicate) store)).
Proof.
  apply Forall_forall. intros t Ht. rewrite materialize_result in Ht.
  apply list_elem_of_omap in Ht as (f & _ & Hedge).
  apply edge_of_Some in Hedge as (p & _ & _ & Hk).
  apply kept_spec in Hk. unfold excluded_by_options in Hk.
  split; [|split].
  - intros H. apply Hk. by right; right; right.
  - intros Hir H. apply Hk. by left.
  - intros Hig. destruct (Py.startswith (predicate t) "rel_") eqn:E; [|done].
    destruct Hk. right; left. done.
Qed.

Lemma mapM_project_shape (ns : gmap string Node) (l : list Triple)
    (r : list minimal_triple) :
  mapM (project ns) l = Some r →
  Forall2 (λ t m, min_predicate m = predicate t
                  ∧ ns !! subject t ≫= (.!! "id") = Some (min_subject m)
                  ∧ ns !! obj t ≫= (.!! "id") = Some (min_object m)) l r.
Proof.
  intros H. apply mapM_Some in H. eapply Forall2_impl; [exact H|].
  intros t m Hp. unfold project in Hp.
  destruct (ns !! subject t ≫= (.!! "id")) as [s|]; [|done].
  destruct (ns !! obj t ≫= (.!! "id")) as [o|]; [|done].
  simpl in Hp. by simplify_eq.
Qed.

(** X6. When the minimal view is returned, it has one projection per edge,
    in the order of the edges, each with the predicate of its edge and the
    [id] attributes of its two nodes. *)
Theorem get_triples_minimal_shape (store : list fact) (ignore_rel : bool)
    (filter_predicate : option filter_arg) (ignore_grammatical : bool)
    (l : list minimal_triple) :
  get_triples store ignore_rel filter_predicate ignore_grammatical true
    = inr (Minimal l) →
  let v := materialize ignore_rel ignore_grammatical
             (normalize_filter filter_predicate) store in
  Forall2 (λ t m, min_predicate m = predicate t
                  ∧ attribute v (subject t) "id" = Some (min_subject m)
                  ∧ attribute v (obj t) "id" = Some (min_object m))
    (result v) l.
Proof.
  intros H v. unfold get_triples in H. cbv zeta in H.
  rewrite minimal_view_spec in H. fold v in H.
  destruct (mapM (project (nodes v)) (result v)) as [r|] eqn:Hr; [|done].
  simplify_eq. by apply mapM_project_shape.
Qed.

Lemma get_triples_minimal_shape_witness :
  get_triples store_sentence true None false true
    = inr (Minimal [mkMinimal "1" "rel_nsubj" "2"])
  ∧ Forall2 (λ t m, min_predicate m = predicate t
                    ∧ attribute (materialize true false (normalize_filter None)
                                   store_sentence) (subject t) "id"
                      = Some (min_subject m)
                    ∧ attribute (materialize true false (normalize_filter None)
                                   store_sentence) (obj t) "id"
                      = Some (min_object m))
      (result (materialize true false (normalize_filter None) store_sentence))
      [mkMinimal "1" "rel_nsubj" "2"].
Proof.
  split; [reflexivity|].
  apply (get_triples_minimal_shape store_sentence true None false
           [mkMinimal "1" "rel_nsubj" "2"]).
  reflexivity.
Defined.

End ViewFacts.

(** ** The token table and the order of the lexicon pass *)

Section PassFacts.

Lemma get_tokens_fold_is_Some (store : list fact)
    (tokens : gmap string (gmap string string)) (k : string) :
  is_Some (fold_left get_tokens_step store tokens !! k)
  ↔ is_Some (tokens !! k) ∨ ∃ p v, (k, p, Literal v) ∈ store.
Proof.
  revert tokens. induction store as [|[[s p] [v|o]] store IH]; intros tokens; simpl.
  - split; [by left|]. by intros [?|(? & ? & ?%not_elem_of_nil)].
  - rewrite IH, lookup_insert. case_decide as Hk; subst.
    + split; [intros _|intros _; left; by eexists].
      right. exists p, v. apply elem_of_cons. by left.
    + split.
      * intros [?|(q & w & ?)]; [by left|]. right. exists q, w.
        apply elem_of_cons. by right.
      * intros [?|(q & w & [?|?]%elem_of_cons)]; [by left|by simplify_eq|].
        right. eauto.
  - rewrite IH. split.
    + intros [?|(q & w & ?)]; [by left|]. right. exists q, w.
      apply elem_of_cons. by right.
    + intros [?|(q & w & [?|?]%elem_of_cons)]; [by left|done|]. right. eauto.
Qed.

(** X7. The token table has an entry exactly for the subjects of literal
    facts, and its entry holds, for each base-stripped predicate, the value
    of the last such fact: repeated values replace each other and are not
    joined. *)
Theorem get_tokens_last_value (store : list fact) (uri : string) :
  (is_Some (get_tokens store !! uri) ↔ ∃ p v, (uri, p, Literal v) ∈ store)
  ∧ ∀ a, get_tokens store !! uri ≫= (.!! a)
         = last (literal_values store uri a).
Proof.
  split.
  - unfold get_tokens. rewrite get_tokens_fold_is_Some, lookup_empty.
    split; [by intros [[? [=]]|?] | by right].
  - intros a. pose proof (get_tokens_inv store uri) as H.
    destruct (get_tokens store !! uri) as [d|]; simpl; [done|].
    by rewrite literal_values_none.
Qed.

(** A loop stops at its first round that raises: what the rounds before
    it emitted stays, and no later round runs. *)
Lemma for_each_stops {W A : Type} (good : list A) (bad : A) (rest : list A)
    (body : A → emitter W unit) (out : A → list W) (ws : list W) (e : Py.exn) :
  (∀ x, x ∈ good → body x = (out x, inr tt)) →
  body bad = (ws, inl e) →
  for_each (good ++ bad :: rest) body = (flat_map out good ++ ws, inl e).
Proof.
  intros Hgood Hbad. induction good as [|x good IH]; simpl.
  - by rewrite Hbad.
  - rewrite (bind_emitted_ok _ _ (out x) tt) by (apply Hgood, elem_of_cons; by left).
    rewrite IH by (intros y Hy; apply Hgood, elem_of_cons; by right).
    simpl. by rewrite app_assoc.
Qed.

Lemma for_each_outcome {W A : Type} (l : list A) (body : A → emitter W unit) :
  outcome (for_each l body) = inr tt ↔ Forall (λ x, outcome (body x) = inr tt) l.
Proof.
  induction l as [|x l IH]; simpl; [by split|].
  rewrite Forall_cons, <- IH. unfold outcome.
  destruct (body x) as [ws [e|[]]]; simpl.
  - split; [done | by intros [? _]].
  - destruct (for_each l body) as [ws' r]. simpl. split; [by split|by intros [_ ?]].
Qed.

(** X8. Whatever the order in which the tokens are gone through, the
    lexicon pass completes if and only if every token has both [pos] and
    [lemma]; the lexicon plays no part in it. *)
Theorem lexicon_pass_completes_iff (lexicon : list LexEntry)
    (items : list (string * gmap string string)) :
  outcome (lexicon_pass lexicon items) = inr tt
  ↔ Forall (λ item, is_Some (item.2 !! "pos") ∧ is_Some (item.2 !! "lemma")) items.
Proof.
  unfold lexicon_pass. rewrite for_each_outcome. apply Forall_proper; [|done].
  intros [uri token]. rewrite apply_token_spec. simpl.
  destruct (token !! "pos"); [destruct (token !! "lemma")|]; simpl.
  - split; [by split; eexists | done].
  - split; [done | by intros [_ [? [=]]]].
  - split; [done | by intros [[? [=]] _]].
Qed.

(** X9. A token without [pos] or [lemma] stops the pass where it stands:
    the inserts of the tokens gone through before it have been issued and
    stay issued, and none is issued for the tokens after it. *)
Theorem lexicon_pass_stops (lexicon : list LexEntry)
    (good rest : list (string * gmap string string))
    (bad : string * gmap string string) :
  Forall (λ item, is_Some (item.2 !! "pos") ∧ is_Some (item.2 !! "lemma")) good →
  bad.2 !! "pos" = None ∨ bad.2 !! "lemma" = None →
  lexicon_pass lexicon (good ++ bad :: rest)
  = (flat_map (λ item, map (mkInsert (Py.replace item.1 BASE ":"))
                         (token_classes lexicon item.2)) good,
     inl (Py.KeyError (if bad.2 !! "pos" is Some _ then "lemma" else "pos"))).
Proof.
  intros Hgood Hbad. unfold lexicon_pass.
  rewrite (for_each_stops good bad rest _
             (λ item, map (mkInsert (Py.replace item.1 BASE ":"))
                        (token_classes lexicon item.2)) []
             (Py.KeyError (if bad.2 !! "pos" is Some _ then "lemma" else "pos"))).
  - by rewrite app_nil_r.
  - intros [uri token] Hin. rewrite Forall_forall in Hgood.
    destruct (Hgood _ Hin) as [[p Hp] [l Hl]]. simpl in Hp, Hl.
    by rewrite apply_token_spec, Hp, Hl.
  - destruct bad as [uri token]. rewrite apply_token_spec. simpl in *.
    destruct (token !! "pos"); [|done].
    destruct Hbad as [?| ->]; done.
Qed.

Lemma lexicon_pass_stops_witness :
  lexicon_pass lexicon_motion items_partial
  = ([mkInsert ":t_1_run" "motion"], inl (Py.KeyError "pos")).
Proof.
  assert (Forall (λ item : string * gmap string string,
            is_Some (item.2 !! "pos") ∧ is_Some (item.2 !! "lemma"))
            [(NS_BASE "t_1_run", {[ "pos" := "V"; "lemma" := "run" ]})]) as Hgood
    by (repeat constructor; by eexists).
  exact (lexicon_pass_stops lexicon_motion
           [(NS_BASE "t_1_run", {[ "pos" := "V"; "lemma" := "run" ]})]
           [(NS_BASE "t_3_walk", {[ "pos" := "V"; "lemma" := "walk" ]})]
           (NS_BASE "t_2_dog", {[ "lemma" := "dog" ]})
           Hgood (or_introl eq_refl)).
Defined.

Lemma endswith_snoc (s x : string) : Py.endswith (s +:+ x) x = true.
Proof.
  induction s as [|c s IH].
  - change (EmptyString +:+ x) with x.
    destruct x; cbn [Py.endswith]; by rewrite String.eqb_refl.
  - rewrite str_app_cons. cbn [Py.endswith]. rewrite IH. apply orb_true_r.
Qed.

Lemma drop_last_snoc (s : string) (c : ascii) :
  Py.drop_last (s +:+ String c EmptyString) = s.
Proof.
  induction s as [|d s IH]; [done|]. rewrite str_app_cons.
  cbn [Py.drop_last]. rewrite IH.
  destruct s; reflexivity.
Qed.

Lemma startswith_app (s x : string) : Py.startswith (s +:+ x) s = true.
Proof.
  induction s as [|c s IH]; [by destruct x|]. rewrite str_app_cons. simpl.
  by rewrite Ascii.eqb_refl.
Qed.

(** X10. An entry lemma that ends in a star matches exactly the token
    lemmas that start with the text before the star; a star alone matches
    every lemma. *)
Theorem wildcard_matches_prefix (prefix lemma : string) :
  target_matches (prefix +:+ "*") lemma = Py.startswith lemma prefix.
Proof.
  unfold target_matches. rewrite endswith_snoc, drop_last_snoc. simpl.
  destruct (String.eqb_spec (prefix +:+ "*") lemma) as [<-|_]; [|done].
  by rewrite startswith_app.
Qed.

End PassFacts.

(** ** [apply_rule] and [apply_ruleset] *)

Section RulesetFacts.

Lemma apply_rule_spec (rule : gmap string string) :
  apply_rule rule =
  match rule !! "condition" with
  | Some _ => ([rule_call rule], inr tt)
  | None => ([], inl (Py.KeyError "condition"))
  end.
Proof.
  unfold apply_rule, rule_call, getitem. by destruct (rule !! "condition").
Qed.

Lemma rules_loop_ok (rules : list (gmap string string)) :
  Forall (λ rule, is_Some (rule !! "condition")) rules →
  for_each rules apply_rule = (map rule_call rules, inr tt).
Proof.
  intros H. rewrite (for_each_ok _ _ (λ rule, [rule_call rule])).
  - apply (f_equal (λ l, (l, inr tt))).
    induction rules as [|r rules IH]; [done|]. simpl.
    apply Forall_cons in H as [_ H]. by rewrite IH.
  - intros rule Hin. rewrite Forall_forall in H. destruct (H _ Hin) as [c Hc].
    by rewrite apply_rule_spec, Hc.
Qed.

Lemma apply_ruleset_unfold (store : list fact) (lexicon : list LexEntry)
    (rules : option (list (gmap string string))) :
  apply_ruleset store (mkRuleset (Some lexicon) rules) =
  match outcome (apply_lexicon store lexicon) with
  | inl e => (map lexicon_call (emitted (apply_lexicon store lexicon)), inl e)
  | inr _ =>
      match rules with
      | None => (map lexicon_call (emitted (apply_lexicon store lexicon)),
                 inl (Py.KeyError "rules"))
      | Some rules =>
          (map lexicon_call (emitted (apply_lexicon store lexicon))
             ++ emitted (for_each rules apply_rule),
           outcome (for_each rules apply_rule))
      end
  end.
Proof.
  unfold apply_ruleset, as_calls, emitted, outcome. simpl.
  destruct (apply_lexicon store lexicon) as [ws [e|[]]]; simpl; [done|].
  destruct rules as [rules|]; simpl.
  - by destruct (for_each rules apply_rule) as [ws' r].
  - by rewrite app_nil_r.
Qed.

(** X11. When the lexicon pass completes and every rule has a condition,
    [apply_ruleset] issues the inserts of the lexicon first and then one
    update per rule, in the order of the list, each with the rule's
    condition and with the empty text for an absent insert or delete. *)
Theorem apply_ruleset_calls (store : list fact) (lexicon : list LexEntry)
    (rules : list (gmap string string)) :
  outcome (apply_lexicon store lexicon) = inr tt →
  Forall (λ rule, is_Some (rule !! "condition")) rules →
  apply_ruleset store (mkRuleset (Some lexicon) (Some rules))
  = (map lexicon_call (emitted (apply_lexicon store lexicon))
       ++ map rule_call rules, inr tt).
Proof.
  intros Hlex Hrules. rewrite apply_ruleset_unfold, Hlex.
  by rewrite rules_loop_ok.
Qed.

Lemma apply_ruleset_calls_witness :
  apply_ruleset store_run (mkRuleset (Some lexicon_two_entries)
                             (Some [rule_full; rule_insert_only]))
  = ([mkCall None (Some (insert_text (mkInsert ":t_1_run" "motion"))) None;
      mkCall None (Some (insert_text (mkInsert ":t_1_run" "activity"))) None;
      mkCall (Some "?x :lemma 'dog'") (Some "?x :lexclass 'animal'")
        (Some "?x :pos 'X'");
      mkCall (Some "?x :pos 'V'") (Some "?x :lexclass 'verb'")
        (Some EmptyString)],
     inr tt).
Proof.
  assert (Forall (λ rule : gmap string string, is_Some (rule !! "condition"))
            [rule_full; rule_insert_only]) as Hrules
    by (repeat constructor; by eexists).
  exact (apply_ruleset_calls store_run lexicon_two_entries
           [rule_full; rule_insert_only] eq_refl Hrules).
Defined.

(** X12. A rule without a condition raises [KeyError]: the inserts of the
    lexicon and the updates of the rules before it have been issued, no
    update is issued for it or for the rules after it. *)
Theorem apply_ruleset_stops_at_rule (store : list fact) (lexicon : list LexEntry)
    (good rest : list (gmap string string)) (bad : gmap string string) :
  outcome (apply_lexicon store lexicon) = inr tt →
  Forall (λ rule, is_Some (rule !! "condition")) good →
  bad !! "condition" = None →
  apply_ruleset store (mkRuleset (Some lexicon) (Some (good ++ bad :: rest)))
  = (map lexicon_call (emitted (apply_lexicon store lexicon))
       ++ map rule_call good, inl (Py.KeyError "condition")).
Proof.
  intros Hlex Hgood Hbad. rewrite apply_ruleset_unfold, Hlex.
  rewrite (for_each_stops good bad rest _ (λ rule, [rule_call rule]) []
             (Py.KeyError "condition")).
  - unfold emitted, outcome. simpl. rewrite app_nil_r.
    apply (f_equal (λ l, (map lexicon_call (apply_lexicon store lexicon).1 ++ l,
                          inl (Py.KeyError "condition")))).
    clear. induction good as [|r good IH]; [done|]. simpl. by rewrite IH.
  - intros rule Hin. rewrite Forall_forall in Hgood.
    destruct (Hgood _ Hin) as [c Hc]. by rewrite apply_rule_spec, Hc.
  - by rewrite apply_rule_spec, Hbad.
Qed.

Lemma apply_ruleset_stops_at_rule_witness :
  apply_ruleset store_run
    (mkRuleset (Some lexicon_motion)
       (Some [rule_full; rule_no_condition; rule_insert_only]))
  = ([mkCall None (Some (insert_text (mkInsert ":t_1_run" "motion"))) None;
      mkCall (Some "?x :lemma 'dog'") (Some "?x :lexclass 'animal'")
        (Some "?x :pos 'X'")],
     inl (Py.KeyError "condition")).
Proof.
  assert (Forall (λ rule : gmap string string, is_Some (rule !! "condition"))
            [rule_full]) as Hgood by (repeat constructor; by eexists).
  exact (apply_ruleset_stops_at_rule store_run lexicon_motion
           [rule_full] [rule_insert_only] rule_no_condition
           eq_refl Hgood eq_refl).
Defined.

(** X13. When the lexicon pass raises, [apply_ruleset] raises the same
    exception and applies no rule: every update issued is an insert of the
    lexicon pass. *)
Theorem apply_ruleset_lexicon_raises (store : list fact)
    (lexicon : list LexEntry) (rules : option (list (gmap string string)))
    (e : Py.exn) :
  outcome (apply_lexicon store lexicon) = inl e →
  apply_ruleset store (mkRuleset (Some lexicon) rules)
  = (map lexicon_call (emitted (apply_lexicon store lexicon)), inl e).
Proof. intros Hlex. by rewrite apply_ruleset_unfold, Hlex. Qed.

Lemma apply_ruleset_lexicon_raises_witness :
  apply_ruleset store_no_pos
    (mkRuleset (Some lexicon_motion) (Some [rule_full; rule_insert_only]))
  = ([], inl (Py.KeyError "pos")).
Proof.
  exact (apply_ruleset_lexicon_raises store_no_pos lexicon_motion
           (Some [rule_full; rule_insert_only]) (Py.KeyError "pos") eq_refl).
Defined.

(** X14. A ruleset without [rules] raises [KeyError] only after its
    lexicon has been applied; a ruleset without [lexicon] raises before
    anything is issued. *)
Theorem apply_ruleset_missing_key (store : list fact) (lexicon : list LexEntry)
    (rules : option (list (gmap string string))) :
  apply_ruleset store (mkRuleset None rules) = ([], inl (Py.KeyError "lexicon"))
  ∧ (outcome (apply_lexicon store lexicon) = inr tt →
     apply_ruleset store (mkRuleset (Some lexicon) None)
     = (map lexicon_call (emitted (apply_lexicon store lexicon)),
        inl (Py.KeyError "rules"))).
Proof.
  split; [done|]. intros Hlex. by rewrite apply_ruleset_unfold, Hlex.
Qed.

Lemma apply_ruleset_missing_key_witness :
  apply_ruleset store_run (mkRuleset (Some lexicon_motion) None)
  = ([mkCall None (Some (insert_text (mkInsert ":t_1_run" "motion"))) None],
     inl (Py.KeyError "rules")).
Proof.
  exact (proj2 (apply_ruleset_missing_key store_run lexicon_motion None) eq_refl).
Defined.

End RulesetFacts.

(** ** [_saf_to_rdf]: a sentence that is absent, a token that is broken *)

Section SafEdgeCases.

Context `{lib : Library}.

(** The tokens' loop on a list that starts with well-formed tokens. *)
Lemma token_loop_prefix (sentence_id : Z) (good l : list saf_token)
    (uris : gmap Z string) :
  Forall (token_wf sentence_id) good →
  token_loop sentence_id (good ++ l) uris
  = ((sentence_facts sentence_id good
        ++ (token_loop sentence_id l
              (fold_left (uris_step sentence_id) good uris)).1),
     (token_loop sentence_id l (fold_left (uris_step sentence_id) good uris)).2).
Proof.
  revert uris. induction good as [|token good IH]; intros uris Hwf.
  - simpl. by destruct (token_loop _ _ _).
  - apply Forall_cons in Hwf as [Htok Hwf].
    rewrite <- app_comm_cons. cbn [token_loop] in *.
    destruct Htok as [[s Hs] Htok].
    rewrite (getitem_int _ _ _ Hs), emitter_ret_bind in *.
    cbn [fold_left sentence_facts flat_map].
    unfold uris_step at 2 4. unfold in_sentence in *.
    rewrite Hs in *. destruct (Z.eqb_spec s sentence_id) as [->|Hne].
    + rewrite bool_decide_eq_true_2 in * by done.
      destruct Htok as [[uri Huri] [i Hi]]; [done|]. rewrite Huri, Hi.
      rewrite (_token_uri_ok _ _ Huri), emitter_ret_bind, attributes_loop.
      rewrite (getitem_int _ _ _ Hi).
      rewrite (bind_emitted_ok _ _ (token_facts uri token) tt) by done.
      rewrite emitter_ret_bind, IH by done. simpl. by rewrite <- app_assoc.
    + rewrite bool_decide_eq_false_2 by congruence. by rewrite IH.
Qed.

Lemma no_token_selected (sentence_id : Z) (l : list saf_token)
    (uris : gmap Z string) :
  Forall (λ token, in_sentence sentence_id token = false) l →
  sentence_facts sentence_id l = []
  ∧ fold_left (uris_step sentence_id) l uris = uris.
Proof.
  revert uris. induction l as [|token l IH]; intros uris H; [done|].
  apply Forall_cons in H as [Hout H]. simpl. unfold uris_step at 2.
  rewrite Hout. simpl. by apply IH.
Qed.

(** X15. Selecting a sentence that no token belongs to yields no fact and
    raises nothing, whatever the dependencies are, provided every token
    has a numeric sentence and every dependency a numeric child. *)
Theorem saf_to_rdf_absent_sentence (article : saf_article) (sentence_id : Z) :
  Forall (λ token, ∃ s, token_sentence token = Some s ∧ s ≠ sentence_id)
    (tokens article) →
  Forall (λ dep, is_Some (as_int (child dep))) (dependencies article) →
  _saf_to_rdf article sentence_id = ([], inr tt).
Proof.
  intros Htok Hdeps.
  assert (Forall (λ token, in_sentence sentence_id token = false) (tokens article))
    as Hout.
  { eapply Forall_impl; [exact Htok|]. intros token (s & Hs & Hne).
    unfold in_sentence. rewrite Hs. apply bool_decide_eq_false_2. congruence. }
  assert (Forall (token_wf sentence_id) (tokens article)) as Hwf.
  { rewrite Forall_forall in Htok, Hout. apply Forall_forall. intros token Hin.
    destruct (Htok _ Hin) as (s & Hs & _). split; [by eexists|].
    rewrite (Hout _ Hin). done. }
  destruct (no_token_selected sentence_id (tokens article) ∅ Hout) as [Hfacts Huris].
  unfold _saf_to_rdf.
  rewrite (bind_emitted_ok _ _ _ _ (token_loop_ok _ _ ∅ Hwf)), Hfacts, Huris.
  rewrite (for_each_ok _ _ (λ _, [])).
  - simpl. apply (f_equal (λ l, (l, inr tt))).
    clear. induction (dependencies article) as [|d l IH]; [done|]. done.
  - intros dep Hin. rewrite Forall_forall in Hdeps.
    destruct (Hdeps _ Hin) as [c Hc].
    by apply (dependency_step_outside _ _ c).
Qed.

(** X16. A token without a [sentence] field makes the conversion raise
    [KeyError], whichever sentence is selected, once the facts of the
    tokens before it have been yielded; no dependency is converted. *)
Theorem saf_to_rdf_missing_sentence (sentence_id : Z)
    (good rest : list saf_token) (bad : saf_token) (deps : list dependency) :
  Forall (token_wf sentence_id) good →
  token_get bad "sentence" = None →
  _saf_to_rdf (mkArticle (good ++ bad :: rest) deps) sentence_id
  = (sentence_facts sentence_id good, inl (Py.KeyError "sentence")).
Proof.
  intros Hgood Hbad. unfold _saf_to_rdf. simpl.
  rewrite (token_loop_prefix _ _ _ _ Hgood). cbn [token_loop].
  assert (token_getitem (W := fact) bad "sentence" = raise (Py.KeyError "sentence"))
    as -> by (unfold token_getitem; by rewrite Hbad).
  simpl. by rewrite app_nil_r.
Qed.

End SafEdgeCases.

(** ** From an article to the view: [_saf_to_rdf], then [get_triples] *)

Section SafToView.

Context `{lib : Library}.

Lemma saf_to_rdf_emitted (article : saf_article) (sentence_id : Z) :
  Forall (token_wf sentence_id) (tokens article) →
  Forall (dependency_closed (sentence_uris sentence_id (tokens article)))
    (dependencies article) →
  emitted (_saf_to_rdf article sentence_id)
  = sentence_facts sentence_id (tokens article)
    ++ edge_facts (sentence_uris sentence_id (tokens article))
         (dependencies article).
Proof.
  intros Hwf Hcl. unfold _saf_to_rdf.
  rewrite (bind_emitted_ok _ _ _ _ (token_loop_ok _ _ ∅ Hwf)).
  fold (sentence_uris sentence_id (tokens article)).
  by rewrite dependencies_loop_ok.
Qed.

Lemma token_facts_no_edge (keep : string → bool) (uri : string) (token : saf_token) :
  omap (edge_of keep) (token_facts uri token) = [].
Proof. induction token as [|kv token IH]; [done|]. simpl. exact IH. Qed.

Lemma sentence_facts_no_edge (keep : string → bool) (sentence_id : Z)
    (l : list saf_token) :
  omap (edge_of keep) (sentence_facts sentence_id l) = [].
Proof.
  induction l as [|token l IH]; [done|]. unfold sentence_facts in *. simpl.
  rewrite omap_app, IH, app_nil_r.
  destruct (in_sentence sentence_id token); [|done].
  destruct (token_uri token); [|done]. apply token_facts_no_edge.
Qed.

Lemma rel_uri_stripped (dep : dependency) :
  Py.replace (_rel_uri dep) BASE EmptyString
  = "rel_" +:+ Py.replace (unicode (relation dep)) BASE EmptyString.
Proof. reflexivity. Qed.

Lemma startswith_empty (s : string) : Py.startswith s EmptyString = true.
Proof. by destruct s. Qed.

Lemma omap_one {A B : Type} (f : A → option B) (x : A) :
  omap f [x] = option_list (f x).
Proof. simpl. by destruct (f x). Qed.

Lemma dependency_facts_rel_edge (c p : string) (dep : dependency) :
  omap (edge_of (λ pred, negb (excluded false true None pred)))
    (dependency_facts c p dep)
  = [mkTriple c "rel" p].
Proof.
  unfold dependency_facts.
  change [(c, _rel_uri dep, URIRef p); (c, NS_BASE "rel", URIRef p)]
    with ([(c, _rel_uri dep, URIRef p)] ++ [(c, NS_BASE "rel", URIRef p)]).
  rewrite omap_app, !omap_one. unfold edge_of. rewrite rel_uri_stripped.
  assert (excluded false true None
            ("rel_" +:+ Py.replace (unicode (relation dep)) BASE EmptyString)
          = true) as ->.
  { unfold excluded. simpl. by rewrite startswith_empty. }
  reflexivity.
Qed.

(** X17. Read back from a store that holds the facts of a converted
    sentence in the order they were yielded, every dependency between two
    tokens of the sentence is one edge: with the default options it is the
    edge of its own relation, [rel_] and the relation's name, the generic
    [rel] being dropped; with [ignore_rel=False] and [ignore_grammatical]
    set it is the [rel] edge. *)
Theorem saf_view_edges (article : saf_article) (sentence_id : Z) :
  Forall (token_wf sentence_id) (tokens article) →
  Forall (dependency_closed (sentence_uris sentence_id (tokens article)))
    (dependencies article) →
  result (materialize true false (normalize_filter None)
            (emitted (_saf_to_rdf article sentence_id)))
  = dependency_edges
      (λ dep, "rel_" +:+ Py.replace (unicode (relation dep)) BASE EmptyString)
      (sentence_uris sentence_id (tokens article)) (dependencies article)
  ∧ result (materialize false true (normalize_filter None)
              (emitted (_saf_to_rdf article sentence_id)))
    = dependency_edges (λ _, "rel")
        (sentence_uris sentence_id (tokens article)) (dependencies article).
Proof.
  intros Hwf Hcl. rewrite (saf_to_rdf_emitted _ _ Hwf Hcl).
  rewrite !materialize_result, !omap_app, !sentence_facts_no_edge. simpl.
  unfold edge_facts, dependency_edges.
  generalize (sentence_uris sentence_id (tokens article)). intros uris.
  clear. split.
  - induction (dependencies article) as [|dep deps IH]; [done|]. simpl.
    rewrite omap_app, IH.
    destruct (as_int (child dep) ≫= (uris !!.)) as [c|]; [|done].
    destruct (as_int (parent dep) ≫= (uris !!.)) as [p|]; [|done].
    reflexivity.
  - induction (dependencies article) as [|dep deps IH]; [done|]. simpl.
    rewrite omap_app, IH.
    destruct (as_int (child dep) ≫= (uris !!.)) as [c|]; [|done].
    destruct (as_int (parent dep) ≫= (uris !!.)) as [p|]; [|done].
    by rewrite dependency_facts_rel_edge.
Qed.












End SafToView.

(** ** The further properties of [_saf_to_rdf] on the sample articles *)

Section SafMoreSamples.

Existing Instance ascii_library.

Lemma article_closed_is_closed :
  Forall (dependency_closed (sentence_uris 1 (tokens article_closed)))
    (dependencies article_closed).
Proof. repeat constructor; [by eexists|]. intros _. by eexists. Qed.

Lemma saf_to_rdf_absent_sentence_witness :
  _saf_to_rdf article_crossing 7 = ([], inr tt).
Proof.
  apply saf_to_rdf_absent_sentence.
  - repeat constructor; eexists; (split; [reflexivity|discriminate]).
  - repeat constructor; by eexists.
Defined.

Lemma saf_to_rdf_missing_sentence_witness :
  _saf_to_rdf article_unplaced 1
  = (sentence_facts 1 [token_dog], inl (Py.KeyError "sentence")).
Proof.
  assert (Forall (token_wf 1) [token_dog]) as Hgood.
  { repeat constructor; by eexists. }
  exact (saf_to_rdf_missing_sentence 1 [token_dog] [token_bark] token_unplaced
           [mkDep (JInt 1) (JInt 2) (JStr "nsubj")] Hgood eq_refl).
Defined.

Lemma saf_view_edges_witness :
  result (materialize true false (normalize_filter None)
            (emitted (_saf_to_rdf article_closed 1)))
  = [mkTriple (NS_BASE "t_1_dog") "rel_nsubj" (NS_BASE "t_2_bark")]
  ∧ result (materialize false true (normalize_filter None)
              (emitted (_saf_to_rdf article_closed 1)))
    = [mkTriple (NS_BASE "t_1_dog") "rel" (NS_BASE "t_2_bark")].
Proof.
  destruct (saf_view_edges article_closed 1 sample_tokens_wf
              article_closed_is_closed) as [H1 H2].
  split; [rewrite H1|rewrite H2]; reflexivity.
Defined.



End SafMoreSamples.

(** ** [get_graphviz] *)

Section Graphviz.














Lemma has_slash_app (a name : string) :
  has_slash (a +:+ String "/" name) = true.
Proof.
  induction a as [|c a IH]; [done|]. rewrite str_app_cons. simpl.
  rewrite IH. apply orb_true_r.
Qed.

Lemma last_segment_slash (a name : string) :
  has_slash name = false → last_segment (a +:+ String "/" name) = name.
Proof.
  intros Hname. induction a as [|c a IH].
  - change (last_segment (String "/" name) = name). simpl. by rewrite Hname.
  - rewrite str_app_cons. cbn [last_segment]. by rewrite has_slash_app.
Qed.

(** X22. The name under which a node is drawn is the local name of its
    identifier: for an identifier [BASE] + name, with no slash in the name
    and no literal [uri] in the store, the name itself. *)
Theorem get_graphviz_node_name (store : list fact) (name : string) :
  has_slash name = false →
  literal_values store (NS_BASE name) "uri" = [] →
  node_name (materialize true false (normalize_filter None) store) (NS_BASE name)
  = name.
Proof.
  intros Hname Hlit. unfold node_name.
  rewrite (nodes_inv_node_at store).
  - rewrite Hlit.
    change (last_segment ("http://example.com/jitp" +:+ String "/" name) = name).
    by apply last_segment_slash.
  - apply (fold_nodes_inv true false _ store [] (mkView ∅ [])), empty_nodes_inv.
Qed.



Lemma get_graphviz_node_name_witness :
  node_name (materialize true false (normalize_filter None) store_sentence)
    (NS_BASE "t_1_dog")
  = "t_1_dog".
Proof.
  exact (get_graphviz_node_name store_sentence "t_1_dog" eq_refl eq_refl).
Defined.

End Graphviz.
